(** * Urban mobility resilience: edge selection, shock simulation, sweeps

    A shallow embedding of [backend/urban_resilience]: [edge_selection.py],
    [simulation.py] and [experiments.py], with the cache name of
    [graph_loader.py] and the two POST endpoints of [backend/app.py].

    Conventions of the embedding.
    - A Python float is the rational it denotes ([Q], no NaN, no infinity);
      equality of floats is [==].  An arithmetic operation returns the exact
      result rounded to a float: the rounding is an interface ([Float64]).
      [int(x)] truncates toward zero, [a / b] raises on a zero divisor.
    - A graph object lives in a store and is named by a location; [G.copy()]
      allocates, [remove_edge] updates in place.  Functions that receive a
      graph receive its location.
    - networkx, numpy's generator and shapely are interfaces (type classes);
      the theorems hold for every implementation that meets the stated laws.
      Reference implementations, good for small graphs, are given so that
      every statement can be run on concrete inputs. *)

From Stdlib Require Import ZArith QArith Qround List String Bool Lia.
From Stdlib Require Import Permutation Sorted Ascii.
Import ListNotations.

Local Open Scope Z_scope.

(** ** Python values and exceptions *)

Inductive exn : Type :=
| ValueError
| KeyError
| RuntimeError
| ZeroDivisionError
| NetworkXNoPath
| NodeNotFound.

Inductive res (A : Type) : Type :=
| Ok (a : A)
| Raise (e : exn).
Arguments Ok {A} a.
Arguments Raise {A} e.

Definition res_bind {A B} (r : res A) (k : A -> res B) : res B :=
  match r with
  | Ok a => k a
  | Raise e => Raise e
  end.

Declare Scope res_scope.
Delimit Scope res_scope with res.
Notation "x <~ r ;; k" := (res_bind r (fun x => k))
  (at level 61, r at next level, right associativity) : res_scope.
Notation "' pat <~ r ;; k" := (res_bind r (fun x => match x with pat => k end))
  (at level 61, pat pattern, r at next level, right associativity) : res_scope.

(** [int(x)] on a float: truncation toward zero. *)
Definition py_int (x : Q) : Z := Z.quot (Qnum x) (Z.pos (Qden x)).

(** IEEE binary64 arithmetic: [fl x] is [x] rounded to the nearest float.
    Rounding is monotone and leaves the integers up to [2^53] as they are. *)
Definition max_exact_int : Z := 9007199254740992.

Class Float64 : Type := {
  fl : Q -> Q;
  fl_monotone : forall x y : Q, (x <= y)%Q -> (fl x <= fl y)%Q;
  fl_integer : forall z : Z,
      Z.abs z <= max_exact_int -> (fl (inject_Z z) == inject_Z z)%Q
}.

(** [a / b] on floats. *)
Definition truediv `{Float64} (a b : Q) : res Q :=
  if Qeq_bool b 0 then Raise ZeroDivisionError else Ok (fl (a / b))%Q.

(** A dict entry of an edge: the key is missing, holds [None], or a value. *)
Inductive attr (A : Type) : Type :=
| Missing
| Null
| Val (a : A).
Arguments Missing {A}.
Arguments Null {A}.
Arguments Val {A} a.

Definition has_key {A} (a : attr A) : bool :=
  match a with Missing => false | _ => true end.

(** pandas [notna]: a missing key is NaN in the column, [None] is null. *)
Definition notna {A} (a : attr A) : bool :=
  match a with Val _ => true | _ => false end.

(** ** Data model *)

Definition node := Z.
Definition EdgeId := (node * node * Z)%type.

(** An OSM tag value: a string, or a list of strings. *)
Inductive tag : Type :=
| Str (s : string)
| Strs (l : list string).

(** A shapely geometry, by its vertices. *)
Definition Geometry := list (Q * Q).

Record EdgeData : Type := mkEdgeData {
  bridge : attr tag;
  tunnel : attr tag;
  highway : attr tag;
  travel_time : attr Q;
  length_attr : attr Q;
  geometry : Geometry
}.

(** A [MultiDiGraph]: nodes and edges in iteration order. *)
Record Graph : Type := mkGraph {
  nodes : list node;
  edges : list (EdgeId * EdgeData)
}.

Definition EdgeId_eqb (a b : EdgeId) : bool :=
  let '(u1, v1, k1) := a in
  let '(u2, v2, k2) := b in
  (u1 =? u2) && (v1 =? v2) && (k1 =? k2).

Definition edge_ids (g : Graph) : list EdgeId := map fst (edges g).

Definition has_edge (g : Graph) (e : EdgeId) : bool :=
  existsb (EdgeId_eqb e) (edge_ids g).

Definition remove_edge (g : Graph) (e : EdgeId) : Graph :=
  mkGraph (nodes g)
          (filter (fun r => negb (EdgeId_eqb e (fst r))) (edges g)).

(** The dict entry read by [data.get(weight)] / [weight in data]. *)
Definition edge_attr (name : string) (d : EdgeData) : attr Q :=
  if String.eqb name "travel_time" then travel_time d
  else if String.eqb name "length" then length_attr d
  else Missing.

Record SimulationMetrics : Type := mkMetrics {
  avg_ratio : Q;
  median_ratio : Q;
  pct_disconnected : Q;
  n_removed_edges : Z;
  n_pairs : Z
}.

(** ** The world: graph store, OS entropy, the graph provider *)

Definition loc := nat.

Record World : Type := mkWorld {
  heap : list Graph;
  os_entropy : N;
  provider : string -> string -> res Graph
}.

(** Computations that may raise and may change the world. *)
Definition M (A : Type) : Type := World -> res A * World.

Definition ret {A} (a : A) : M A := fun w => (Ok a, w).

Definition raise {A} (e : exn) : M A := fun w => (Raise e, w).

Definition lift {A} (r : res A) : M A := fun w => (r, w).

Definition bind {A B} (m : M A) (k : A -> M B) : M B :=
  fun w =>
    match m w with
    | (Ok a, w') => k a w'
    | (Raise e, w') => (Raise e, w')
    end.

Declare Scope M_scope.
Delimit Scope M_scope with M.
Notation "x <- m ;; k" := (bind m (fun x => k))
  (at level 61, m at next level, right associativity) : M_scope.
Notation "' pat <- m ;; k" := (bind m (fun x => match x with pat => k end))
  (at level 61, pat pattern, m at next level, right associativity) : M_scope.

(** A new graph object. *)
Definition alloc (g : Graph) : M loc :=
  fun w => (Ok (List.length (heap w)),
            mkWorld (heap w ++ [g]) (os_entropy w) (provider w)).

(** Reading through a reference; a dangling one cannot arise in Python. *)
Definition deref (l : loc) : M Graph :=
  fun w =>
    match nth_error (heap w) l with
    | Some g => (Ok g, w)
    | None => (Raise NodeNotFound, w)
    end.

Fixpoint list_set {A} (l : list A) (i : nat) (a : A) : list A :=
  match l, i with
  | [], _ => []
  | _ :: l', O => a :: l'
  | x :: l', S i' => x :: list_set l' i' a
  end.

(** In-place update of the object behind a reference. *)
Definition store (l : loc) (g : Graph) : M unit :=
  fun w => (Ok tt, mkWorld (list_set (heap w) l g) (os_entropy w) (provider w)).

(** [G.copy()] *)
Definition graph_copy (G : loc) : M loc :=
  (g <- deref G ;; alloc g)%M.

(** ** External libraries as interfaces *)

(** shapely: [geom.intersects(p)] *)
Class Shapely : Type := {
  intersects : Geometry -> Geometry -> bool
}.

(** numpy: a [Generator], [default_rng(seed)], [rng.shuffle(l)] and
    [rng.choice(l, size=2, replace=False)]; [np.mean] and [np.median]. *)
Class NumpyRandom : Type := {
  np_mean : list Q -> Q;
  np_median : list Q -> Q;
  Generator : Type;
  seeded : N -> Generator;
  shuffle : forall {A : Type}, Generator -> list A -> list A * Generator;
  choice2 : Generator -> list node -> res (node * node * Generator);
  shuffle_perm : forall (A : Type) (g : Generator) (l : list A),
      Permutation l (fst (shuffle g l));
  choice2_short : forall g l,
      (List.length l < 2)%nat -> choice2 g l = Raise ValueError;
  choice2_positions : forall g l,
      (2 <= List.length l)%nat ->
      exists i j u v g',
        i <> j /\ nth_error l i = Some u /\ nth_error l j = Some v /\
        choice2 g l = Ok (u, v, g')
}.

(** An undirected simple graph, [nx.Graph]. *)
Record UGraph : Type := mkUGraph {
  unodes : list node;
  uedges : list (node * node)
}.

(** networkx: the algorithms the package calls. *)
Class NetworkX : Type := {
  weakly_connected_components : Graph -> list (list node);
  has_path : Graph -> node -> node -> bool;
  astar_path_length : Graph -> node -> node -> string -> res Q;
  edge_betweenness_centrality : UGraph -> list (node * node * Q);
  (* the result dict has one entry per edge, in edge order *)
  edge_betweenness_keys : forall U,
      map fst (edge_betweenness_centrality U) = uedges U
}.

(** [np.random.default_rng(seed)]: a supplied seed fixes the generator,
    [None] draws fresh entropy from the operating system. *)
Definition default_rng `{NumpyRandom} (seed : option N) : M Generator :=
  match seed with
  | Some s => ret (seeded s)
  | None => fun w =>
      (Ok (seeded (os_entropy w)),
       mkWorld (heap w) (N.succ (os_entropy w)) (provider w))
  end.

(** ** config.py *)

Definition SCENARIOS : list string :=
  [ "Bridge Collapse"; "Tunnel Closure"; "Highway Flood";
    "Targeted Attack (Top k%)"; "Random Failure" ]%string.

Definition str_in (s : string) (l : list string) : bool :=
  existsb (String.eqb s) l.

(** ** edge_selection.py *)

(** The edge table of osmnx's [graph_to_gdfs], index reset: one row per
    edge, in edge order.  A column exists when some edge has the key.
    osmnx refuses a graph without edges. *)
Definition GeoDataFrame := list (EdgeId * EdgeData).

Definition graph_to_edges_gdf (g : Graph) : res GeoDataFrame :=
  match edges g with
  | [] => Raise ValueError
  | rows => Ok rows
  end.

Definition in_columns {A} (col : EdgeData -> attr A) (T : GeoDataFrame) : bool :=
  existsb (fun r => has_key (col (snd r))) T.

(** [list(map(tuple, sub[["u","v","key"]].values.tolist()))] for the rows
    of [T] selected by [mask]. *)
Definition rows_where (mask : EdgeData -> bool) (T : GeoDataFrame) : list EdgeId :=
  map fst (filter (fun r => mask (snd r)) T).

Definition select_bridge_edges (g : Graph) : res (list EdgeId) :=
  (T <~ graph_to_edges_gdf g ;;
   if negb (in_columns bridge T) then Ok []
   else
     let sub := rows_where (fun d => notna (bridge d)) T in
     match sub with
     | [] => Ok []
     | _ => Ok sub
     end)%res.

Definition select_tunnel_edges (g : Graph) : res (list EdgeId) :=
  (T <~ graph_to_edges_gdf g ;;
   if negb (in_columns tunnel T) then Ok []
   else
     let sub := rows_where (fun d => notna (tunnel d)) T in
     match sub with
     | [] => Ok []
     | _ => Ok sub
     end)%res.

Definition major : list string :=
  [ "motorway"; "trunk"; "primary"; "secondary" ]%string.

Definition is_major (val : attr tag) : bool :=
  match val with
  | Val (Strs l) => existsb (fun v => str_in v major) l
  | Val (Str s) => str_in s major
  | _ => false
  end.

Definition select_highway_edges (g : Graph) : res (list EdgeId) :=
  (T <~ graph_to_edges_gdf g ;;
   if negb (in_columns highway T) then Raise KeyError
   else Ok (rows_where (fun d => is_major (highway d)) T))%res.

(** [nx.Graph(G)]: neighbours of [n] in the order the edges add them. *)
Fixpoint dedup (seen l : list node) : list node :=
  match l with
  | [] => []
  | x :: l' =>
      if existsb (Z.eqb x) seen then dedup seen l'
      else x :: dedup (x :: seen) l'
  end.

Definition neighbours (g : Graph) (n : node) : list node :=
  dedup []
    (flat_map (fun r => let '(u, v, _) := fst r in
                        (if u =? n then [v] else []) ++
                        (if v =? n then [u] else []))
              (edges g)).

(** [nx.Graph(G).edges()]: each edge once, from the endpoint met first. *)
Fixpoint edges_from (g : Graph) (seen ns : list node) : list (node * node) :=
  match ns with
  | [] => []
  | n :: ns' =>
      map (fun m => (n, m))
          (filter (fun m => negb (existsb (Z.eqb m) seen)) (neighbours g n))
      ++ edges_from g (n :: seen) ns'
  end.

Definition nx_Graph (g : Graph) : UGraph :=
  mkUGraph (nodes g) (edges_from g [] (nodes g)).

Definition Qlt_bool (a b : Q) : bool := negb (Qle_bool b a).

(** [sorted(items, key=lambda kv: kv[1], reverse=True)]: stable. *)
Fixpoint insert_desc (x : node * node * Q) (l : list (node * node * Q))
  : list (node * node * Q) :=
  match l with
  | [] => [x]
  | y :: l' =>
      if Qlt_bool (snd x) (snd y) then y :: insert_desc x l' else x :: y :: l'
  end.

Definition sorted_desc (l : list (node * node * Q)) : list (node * node * Q) :=
  fold_right insert_desc [] l.

(** [tuple(sorted((u, v)))] *)
Definition sorted_pair (u v : node) : node * node := (Z.min u v, Z.max u v).

Definition pair_eqb (a b : node * node) : bool :=
  (fst a =? fst b) && (snd a =? snd b).

Definition pair_in (p : node * node) (s : list (node * node)) : bool :=
  existsb (pair_eqb p) s.

(** [max(1, int(n * severity))] *)
Definition n_selected `{Float64} (n : nat) (severity : Q) : Z :=
  Z.max 1 (py_int (fl (inject_Z (Z.of_nat n) * severity))).

(** Truth value of an optional collection: [None] and [[]] are false. *)
Definition truthy {A} (o : option (list A)) : bool :=
  match o with
  | Some (_ :: _) => true
  | _ => false
  end.

Section EdgeSelection.
Context `{FA : Float64} `{SH : Shapely} `{NP : NumpyRandom} `{NX : NetworkX}.

(** The pairs ranked first by the targeted attack. *)
Definition targeted_top_pairs (g : Graph) (severity : Q) : list (node * node) :=
  let undirected := nx_Graph g in
  let bet := edge_betweenness_centrality undirected in
  let sorted_edges := sorted_desc bet in
  let n_top := n_selected (List.length sorted_edges) severity in
  map (fun kv => sorted_pair (fst (fst kv)) (snd (fst kv)))
      (firstn (Z.to_nat n_top) sorted_edges).

(** The dispatch of [select_edges_for_scenario], once the scenario name
    is checked, the edge table built and the generator made. *)
Definition scenario_candidates
    (g : Graph) (edges_gdf : GeoDataFrame) (rng : Generator)
    (scenario : string) (severity : Q)
    (usgs_flood_polygons : option (list Geometry))
  : res (list EdgeId) :=
  if String.eqb scenario "Bridge Collapse" then
    select_bridge_edges g
  else if String.eqb scenario "Tunnel Closure" then
    select_tunnel_edges g
  else if String.eqb scenario "Highway Flood" then
    if truthy usgs_flood_polygons then
      let polys := match usgs_flood_polygons with
                   | Some l => l
                   | None => []
                   end in
      match polys with
      | _ :: _ =>
          Ok (rows_where
                (fun d => existsb (intersects (geometry d)) polys)
                edges_gdf)
      | [] => select_highway_edges g
      end
    else select_highway_edges g
  else if String.eqb scenario "Targeted Attack (Top k%)" then
    let top_pairs := targeted_top_pairs g severity in
    Ok (filter (fun e => let '(u, v, _) := e in
                         pair_in (sorted_pair u v) top_pairs)
               (edge_ids g))
  else if String.eqb scenario "Random Failure" then
    let all_edges := edge_ids g in
    let n_remove := n_selected (List.length all_edges) severity in
    let all_edges := fst (shuffle rng all_edges) in
    Ok (firstn (Z.to_nat n_remove) all_edges)
  else Ok [].

Definition select_edges_for_scenario
    (G : loc) (scenario : string) (severity : Q)
    (usgs_flood_polygons : option (list Geometry)) (seed : option N)
  : M (list EdgeId) :=
  (if negb (str_in scenario SCENARIOS) then raise ValueError
   else
     g <- deref G ;;
     edges_gdf <- lift (graph_to_edges_gdf g) ;;
     rng <- default_rng seed ;;
     lift (scenario_candidates g edges_gdf rng scenario severity
                               usgs_flood_polygons))%M.

End EdgeSelection.

(** ** simulation.py *)

Definition node_in (n : node) (l : list node) : bool := existsb (Z.eqb n) l.

(** [G.subgraph(comp).copy()] *)
Definition subgraph (g : Graph) (comp : list node) : Graph :=
  mkGraph (filter (fun n => node_in n comp) (nodes g))
          (filter (fun r => let '(u, v, _) := fst r in
                            node_in u comp && node_in v comp)
                  (edges g)).

(** [max(components, key=len)]: the first of the longest; no component at
    all is a [ValueError]. *)
Definition max_by_len (cs : list (list node)) : res (list node) :=
  match cs with
  | [] => Raise ValueError
  | c :: cs' =>
      Ok (fold_left
            (fun best c' =>
               if (List.length best <? List.length c')%nat then c' else best)
            cs' c)
  end.

Definition Qsum (l : list Q) : Q := fold_right Qplus 0%Q l.

Definition _weight_attr (g : Graph) : string :=
  match edges g with
  | [] => "length"
  | (_, data) :: _ =>
      if has_key (travel_time data) then "travel_time"
      else if has_key (length_attr data) then "length"
      else "length"
  end.

Section Simulation.
Context `{FA : Float64} `{NP : NumpyRandom} `{NX : NetworkX}.

Definition _largest_component (g : Graph) : res Graph :=
  (comp <~ max_by_len (weakly_connected_components g) ;;
   Ok (subgraph g comp))%res.

(** The sampling loop; [remaining] is [max_attempts - attempts]. *)
Fixpoint sample_loop (H : Graph) (nodes : list node) (n_pairs : Z)
    (remaining : nat) (rng : Generator)
    (pairs : list (node * node)) (attempts : Z)
  : res (list (node * node) * Z) :=
  match remaining with
  | O => Ok (pairs, attempts)
  | S remaining' =>
      if Z.of_nat (List.length pairs) <? n_pairs then
        ('(u, v, rng') <~ choice2 rng nodes ;;
         let attempts := attempts + 1 in
         if has_path H u v
         then sample_loop H nodes n_pairs remaining' rng'
                          (pairs ++ [(u, v)]) attempts
         else sample_loop H nodes n_pairs remaining' rng' pairs attempts)%res
      else Ok (pairs, attempts)
  end.

(** The body of [sample_od_pairs], once the generator is made and the
    graph is read. *)
Definition sample_pairs_in (g : Graph) (n_pairs : Z) (rng : Generator)
  : res (list (node * node)) :=
  (H <~ _largest_component g ;;
   let nodes := nodes H in
   let max_attempts := n_pairs * 20 in
   '(pairs, _) <~ sample_loop H nodes n_pairs (Z.to_nat max_attempts)
                              rng [] 0 ;;
   match pairs with
   | [] => Raise RuntimeError
   | _ => Ok pairs
   end)%res.

Definition sample_od_pairs (G : loc) (n_pairs : Z) (seed : option N)
  : M (list (node * node)) :=
  (rng <- default_rng seed ;;
   g <- deref G ;;
   lift (sample_pairs_in g n_pairs rng))%M.

(** The removal loop on the copy. *)
Fixpoint remove_listed (G_after : loc) (edge_ids_to_remove : list EdgeId)
    (n_removed : Z) : M Z :=
  match edge_ids_to_remove with
  | [] => ret n_removed
  | e :: rest =>
      (g <- deref G_after ;;
       if has_edge g e then
         _ <- store G_after (remove_edge g e) ;;
         remove_listed G_after rest (n_removed + 1)
       else remove_listed G_after rest n_removed)%M
  end.

(** One turn of the loop over the sampled pairs. *)
Definition score_pair (G_before G_after : Graph) (weight : string)
    (penalty_ratio : Q) (st : list Q * Z) (p : node * node)
  : res (list Q * Z) :=
  let '(ratios, disconnected) := st in
  let '(u, v) := p in
  match astar_path_length G_before u v weight with
  | Raise NetworkXNoPath => Ok (ratios, disconnected)
  | Raise e => Raise e
  | Ok baseline =>
      match astar_path_length G_after u v weight with
      | Ok damaged =>
          (r <~ truediv damaged baseline ;;
           Ok (ratios ++ [r], disconnected))%res
      | Raise NetworkXNoPath =>
          Ok (ratios ++ [penalty_ratio], disconnected + 1)
      | Raise e => Raise e
      end
  end.

Fixpoint score_pairs (G_before G_after : Graph) (weight : string)
    (penalty_ratio : Q) (pairs : list (node * node)) (st : list Q * Z)
  : res (list Q * Z) :=
  match pairs with
  | [] => Ok st
  | p :: rest =>
      (st' <~ score_pair G_before G_after weight penalty_ratio st p ;;
       score_pairs G_before G_after weight penalty_ratio rest st')%res
  end.

Definition neutral : SimulationMetrics := mkMetrics 1 1 0 0 0.

(** The comparison of the two graphs on the sampled pairs. *)
Definition shock_metrics (G_before G_after : Graph) (n_removed : Z)
    (pairs : list (node * node)) (penalty_ratio : Q)
  : res SimulationMetrics :=
  (let weight := _weight_attr G_before in
   '(ratios, disconnected) <~
      score_pairs G_before G_after weight penalty_ratio pairs ([], 0) ;;
   let len_pairs := Z.of_nat (List.length pairs) in
   match ratios with
   | [] =>
       Ok (mkMetrics penalty_ratio penalty_ratio 100 n_removed len_pairs)
   | _ =>
       Ok (mkMetrics (np_mean ratios) (np_median ratios)
                     (fl (fl (100 * inject_Z disconnected)
                          / inject_Z len_pairs))
                     n_removed len_pairs)
   end)%res.

Definition simulate_single_shock (G : loc) (edge_ids_to_remove : list EdgeId)
    (n_pairs : Z) (penalty_ratio : Q) (seed : option N)
  : M SimulationMetrics :=
  (let G_before := G in
   G_after <- graph_copy G ;;
   n_removed <- remove_listed G_after edge_ids_to_remove 0 ;;
   if n_removed =? 0 then ret neutral
   else
     pairs <- sample_od_pairs G_before n_pairs seed ;;
     before <- deref G_before ;;
     after <- deref G_after ;;
     lift (shock_metrics before after n_removed pairs penalty_ratio))%M.

End Simulation.

(** ** graph_loader.py (the graph provider) and experiments.py *)

(** The provider hands out a fresh graph object for a city, or fails. *)
Definition load_city_graph (city cache_dir : string) : M loc :=
  fun w =>
    match provider w city cache_dir with
    | Ok g => alloc g w
    | Raise e => (Raise e, w)
    end.

Record Row : Type := mkRow {
  row_city : string;
  row_scenario : string;
  row_severity : Q;
  row_run : nat;
  row_metrics : SimulationMetrics
}.

(** [range(n)] *)
Definition range (n : Z) : list nat := seq 0 (Z.to_nat n).

Section Experiments.
Context `{FA : Float64} `{SH : Shapely} `{NP : NumpyRandom} `{NX : NetworkX}.

Definition default_penalty_ratio : Q := 5.

(** The body of the inner loop: one (severity, repeat) cell. *)
Definition sweep_cell (G : loc) (city scenario : string) (n_pairs : Z)
    (usgs_flood_polygons : option (list Geometry)) (base_seed : N)
    (i : nat) (sev : Q) (run : nat) : M Row :=
  (let seed := (base_seed + N.of_nat i * 100 + N.of_nat run)%N in
   edge_ids <- select_edges_for_scenario G scenario sev
                 usgs_flood_polygons (Some seed) ;;
   metrics <- simulate_single_shock G edge_ids n_pairs
                default_penalty_ratio (Some seed) ;;
   ret (mkRow city scenario sev run metrics))%M.

(** [for run in range(runs_per_severity)] *)
Fixpoint for_runs (body : nat -> M Row) (runs : list nat) (rows : list Row)
  : M (list Row) :=
  match runs with
  | [] => ret rows
  | run :: rest =>
      (row <- body run ;;
       for_runs body rest (rows ++ [row]))%M
  end.

(** [for i, sev in enumerate(severities_list)] *)
Fixpoint for_severities (body : nat -> Q -> nat -> M Row)
    (runs_per_severity : Z) (i : nat) (severities : list Q)
    (rows : list Row) : M (list Row) :=
  match severities with
  | [] => ret rows
  | sev :: rest =>
      (rows' <- for_runs (body i sev) (range runs_per_severity) rows ;;
       for_severities body runs_per_severity (S i) rest rows')%M
  end.

Definition run_progressive_damage_experiment
    (city scenario : string) (severities : list Q) (n_pairs : Z)
    (runs_per_severity : Z) (usgs_flood_polygons : option (list Geometry))
    (cache_dir : string) (base_seed : N) : M (list Row) :=
  (G <- load_city_graph city cache_dir ;;
   for_severities
     (sweep_cell G city scenario n_pairs usgs_flood_polygons base_seed)
     runs_per_severity 0 severities [])%M.

End Experiments.

(** ** experiments.py: the single run; graph_loader.py: the cache name *)

(** The dataclass [SimulationResult] (also the response of [/simulate]). *)
Record SimulationResult : Type := mkSimulationResult {
  sr_city : string;
  sr_scenario : string;
  sr_severity : Q;
  sr_avg_ratio : Q;
  sr_median_ratio : Q;
  sr_pct_disconnected : Q;
  sr_n_removed_edges : Z;
  sr_n_pairs : Z
}.

(** [SimulationResult(city=..., avg_ratio=metrics["avg_ratio"], ...)] *)
Definition result_of_metrics (city scenario : string) (severity : Q)
    (metrics : SimulationMetrics) : SimulationResult :=
  mkSimulationResult city scenario severity
    (avg_ratio metrics) (median_ratio metrics) (pct_disconnected metrics)
    (n_removed_edges metrics) (n_pairs metrics).

Section SingleRun.
Context `{FA : Float64} `{SH : Shapely} `{NP : NumpyRandom} `{NX : NetworkX}.

Definition run_single_scenario_for_city
    (city scenario : string) (severity : Q) (n_pairs : Z)
    (usgs_flood_polygons : option (list Geometry))
    (cache_dir : string) (seed : option N) : M SimulationResult :=
  (G <- load_city_graph city cache_dir ;;
   edge_ids <- select_edges_for_scenario G scenario severity
                 usgs_flood_polygons seed ;;
   metrics <- simulate_single_shock G edge_ids n_pairs
                default_penalty_ratio seed ;;
   ret (result_of_metrics city scenario severity metrics))%M.

End SingleRun.

(** [s.replace(c, "")] and [s.replace(c, d)] for one-character strings. *)
Fixpoint delete_char (c : Ascii.ascii) (s : string) : string :=
  match s with
  | EmptyString => EmptyString
  | String a s' =>
      if Ascii.eqb a c then delete_char c s'
      else String a (delete_char c s')
  end.

Fixpoint replace_char (c d : Ascii.ascii) (s : string) : string :=
  match s with
  | EmptyString => EmptyString
  | String a s' =>
      String (if Ascii.eqb a c then d else a) (replace_char c d s')
  end.

(** [safe_name = city.replace(",", "").replace(" ", "_")], the cache key
    of [load_city_graph] and of [download_usgs_flood_features_for_city]. *)
Definition safe_name (city : string) : string :=
  replace_char " "%char "_"%char (delete_char ","%char city).

(** ** app.py: the two POST endpoints *)



Section App.
Context `{FA : Float64} `{SH : Shapely} `{NP : NumpyRandom} `{NX : NetworkX}.

(** [download_usgs_flood_features_for_city], the hazard collaborator:
    polygons, or [None]. *)
Variable download_usgs_flood_features_for_city :
  string -> M (option (list Geometry)).



End App.

(** ** Views used in the statements

    Functions of graph values and seeds that the theorems relate to the
    package's functions, and the predicates their statements use. *)

(** The removal loop seen as a function of the graph value: the damaged
    graph and the number of edges taken out. *)
Fixpoint apply_removals (g : Graph) (ids : list EdgeId) (n_removed : Z)
  : Graph * Z :=
  match ids with
  | [] => (g, n_removed)
  | e :: rest =>
      if has_edge g e then apply_removals (remove_edge g e) rest (n_removed + 1)
      else apply_removals g rest n_removed
  end.

(** The generator that [default_rng] hands out, and the world it leaves. *)
Definition rng_of `{NumpyRandom} (seed : option N) (w : World)
  : Generator * World :=
  match seed with
  | Some s => (seeded s, w)
  | None => (seeded (os_entropy w),
             mkWorld (heap w) (N.succ (os_entropy w)) (provider w))
  end.

Section Views.
Context `{FA : Float64} `{SH : Shapely} `{NP : NumpyRandom} `{NX : NetworkX}.

(** A sampled pair is retained when the baseline search finds a path. *)
Definition has_baseline (G_before : Graph) (weight : string)
    (p : node * node) : bool :=
  match astar_path_length G_before (fst p) (snd p) weight with
  | Raise NetworkXNoPath => false
  | _ => true
  end.

Definition retained (G_before : Graph) (weight : string)
    (pairs : list (node * node)) : list (node * node) :=
  filter (has_baseline G_before weight) pairs.

(** A retained pair is cut off when the damaged search finds no path. *)
Definition cut_off (G_after : Graph) (weight : string)
    (p : node * node) : bool :=
  match astar_path_length G_after (fst p) (snd p) weight with
  | Raise NetworkXNoPath => true
  | _ => false
  end.

(** The selection as a function of the network and a supplied seed. *)
Definition selection_of (g : Graph) (scenario : string) (severity : Q)
    (polys : option (list Geometry)) (seed : N) : res (list EdgeId) :=
  if negb (str_in scenario SCENARIOS) then Raise ValueError
  else (T <~ graph_to_edges_gdf g ;;
        scenario_candidates g T (seeded seed) scenario severity polys)%res.

(** The metrics as a function of the network and a supplied seed. *)
Definition metrics_of (g : Graph) (ids : list EdgeId) (n_pairs : Z)
    (penalty_ratio : Q) (seed : N) : res SimulationMetrics :=
  let after := fst (apply_removals g ids 0) in
  let k := snd (apply_removals g ids 0) in
  if k =? 0 then Ok neutral
  else (pairs <~ sample_pairs_in g n_pairs (seeded seed) ;;
        shock_metrics g after k pairs penalty_ratio)%res.

(** One cell of the table at a given seed: the same seed goes to the
    selection and to the simulation. *)
Definition cell_at_seed (g : Graph) (city scenario : string) (n_pairs : Z)
    (polys : option (list Geometry)) (sev : Q) (run : nat) (seed : N)
  : res Row :=
  (ids <~ selection_of g scenario sev polys seed ;;
   metrics <~ metrics_of g ids n_pairs default_penalty_ratio seed ;;
   Ok (mkRow city scenario sev run metrics))%res.

(** A world that differs from [w] by graph objects added to the store. *)
Definition grown (w w' : World) : Prop :=
  exists extra,
    w' = mkWorld (heap w ++ extra) (os_entropy w) (provider w).

End Views.

(** [x] ranks no lower than [y]. *)
Definition ranks_before (x y : node * node * Q) : Prop := (snd y <= snd x)%Q.

(** Nodes are distinct and every edge joins two nodes of the graph. *)
Definition graph_ok (g : Graph) : Prop :=
  NoDup (nodes g) /\
  forall u v k, In (u, v, k) (edge_ids g) -> In u (nodes g) /\ In v (nodes g).

(** The cells of a sweep, in the order the spec gives them: severities in
    input order, each with its repeats in order, the severity index
    counting from [i0]. *)
Fixpoint sweep_grid (i0 : nat) (severities : list Q) (runs_per_severity : Z)
  : list (nat * Q * nat) :=
  match severities with
  | [] => []
  | sev :: rest =>
      map (fun r => (i0, sev, r)) (range runs_per_severity)
      ++ sweep_grid (S i0) rest runs_per_severity
  end.

(** Results collected in order; the first failure ends the collection. *)
Fixpoint collect_res {X A} (f : X -> res A) (xs : list X) : res (list A) :=
  match xs with
  | [] => Ok []
  | x :: xs' =>
      (a <~ f x ;; rest <~ collect_res f xs' ;; Ok (a :: rest))%res
  end.

(** The identifier is one of those listed. *)
Definition listed (ids : list EdgeId) (e : EdgeId) : bool :=
  existsb (fun x => EdgeId_eqb x e) ids.

(** The network without the listed edges. *)
Definition without_listed (g : Graph) (ids : list EdgeId) : Graph :=
  mkGraph (nodes g) (filter (fun r => negb (listed ids (fst r))) (edges g)).

(** ** Reference implementations of the interfaces

    Executable on small graphs; they meet the laws of the interfaces and
    serve to run the package on concrete inputs. *)

Module Ref.

(** *** networkx *)

(** Out-neighbours of [n]. *)
Definition successors (g : Graph) (n : node) : list node :=
  flat_map (fun r => let '(u, v, _) := fst r in
                     if u =? n then [v] else [])
           (edges g).

(** Closure of [start] under [next], in discovery order. *)
Fixpoint closure (next : node -> list node) (fuel : nat) (start : list node)
  : list node :=
  match fuel with
  | O => start
  | S fuel' =>
      closure next fuel' (start ++ dedup start (flat_map next start))
  end.

Definition reach (g : Graph) (u : node) : list node :=
  closure (successors g) (List.length (nodes g)) [u].

Definition has_path (g : Graph) (u v : node) : bool :=
  node_in v (reach g u).

Definition weak_component (g : Graph) (n : node) : list node :=
  closure (neighbours g) (List.length (nodes g)) [n].

Fixpoint components_from (g : Graph) (seen : list node) (ns : list node)
  : list (list node) :=
  match ns with
  | [] => []
  | n :: ns' =>
      if node_in n seen then components_from g seen ns'
      else
        let c := weak_component g n in
        c :: components_from g (c ++ seen) ns'
  end.

Definition weakly_connected_components (g : Graph) : list (list node) :=
  components_from g [] (nodes g).

(** The weight networkx reads on an edge: a missing key counts 1, [None]
    hides the edge.  Parallel edges are relaxed one by one, which is the
    least weight of the bundle; a bundle that mixes [None] with numbers,
    where networkx's [min] raises, is left out of the examples. *)
Definition edge_weight (weight : string) (d : EdgeData) : option Q :=
  match edge_attr weight d with
  | Missing => Some 1%Q
  | Null => None
  | Val q => Some q
  end.

Definition dist_map := list (node * Q).

Fixpoint lookup (n : node) (m : dist_map) : option Q :=
  match m with
  | [] => None
  | (k, q) :: m' => if k =? n then Some q else lookup n m'
  end.

Fixpoint update (n : node) (q : Q) (m : dist_map) : dist_map :=
  match m with
  | [] => [(n, q)]
  | (k, q') :: m' =>
      if k =? n then (k, if Qlt_bool q q' then q else q') :: m'
      else (k, q') :: update n q m'
  end.

(** One round of relaxation over all visible edges. *)
Definition relax (weight : string) (g : Graph) (m : dist_map) : dist_map :=
  fold_left
    (fun m r =>
       let '(u, v, _) := fst r in
       match lookup u m, edge_weight weight (snd r) with
       | Some du, Some c => update v (du + c)%Q m
       | _, _ => m
       end)
    (edges g) m.

Fixpoint relax_rounds (weight : string) (g : Graph) (k : nat) (m : dist_map)
  : dist_map :=
  match k with
  | O => m
  | S k' => relax_rounds weight g k' (relax weight g m)
  end.

(** Shortest weighted path length from [u] to [v] (for weights that are
    not negative, what A* with no heuristic returns). *)
Definition astar_path_length (g : Graph) (u v : node) (weight : string)
  : res Q :=
  if negb (node_in u (nodes g) && node_in v (nodes g)) then Raise NodeNotFound
  else
    match lookup v (relax_rounds weight g (List.length (nodes g)) [(u, 0%Q)]) with
    | Some d => Ok (Qred d)
    | None => Raise NetworkXNoPath
    end.

(** Unweighted distances and shortest-path counts in an undirected graph. *)
Definition uneighbours (U : UGraph) (n : node) : list node :=
  flat_map (fun e => (if fst e =? n then [snd e] else []) ++
                     (if snd e =? n then [fst e] else []))
           (uedges U).

(** [levels U k front seen]: the BFS layers after [front]. *)
Fixpoint levels (U : UGraph) (fuel : nat) (front seen : list node)
  : list (list node) :=
  match fuel with
  | O => []
  | S fuel' =>
      match front with
      | [] => []
      | _ =>
          let next := dedup seen (flat_map (uneighbours U) front) in
          front :: levels U fuel' next (seen ++ next)
      end
  end.

Definition bfs_levels (U : UGraph) (s : node) : list (list node) :=
  levels U (S (List.length (unodes U))) [s] [s].

Fixpoint index_of (n : node) (ls : list (list node)) : option nat :=
  match ls with
  | [] => None
  | l :: ls' =>
      if node_in n l then Some O
      else match index_of n ls' with
           | Some k => Some (S k)
           | None => None
           end
  end.

Definition distance (U : UGraph) (s t : node) : option nat :=
  index_of t (bfs_levels U s).

(** Number of shortest paths from [s] to [t], by layers. *)
Fixpoint count_paths (U : UGraph) (s : node) (d : nat) (t : node) : nat :=
  match d with
  | O => if s =? t then 1 else 0
  | S d' =>
      fold_right Nat.add O
        (map (fun m =>
                match distance U s m with
                | Some k => if (k =? d')%nat then count_paths U s d' m else O
                | None => O
                end)
             (dedup [] (uneighbours U t)))
  end.

Definition sigma (U : UGraph) (s t : node) : nat :=
  match distance U s t with
  | Some d => count_paths U s d t
  | None => O
  end.

(** Shortest [s]-[t] paths that cross the edge from [a] to [b]. *)
Definition through (U : UGraph) (s t a b : node) : nat :=
  match distance U s a, distance U b t, distance U s t with
  | Some x, Some y, Some d =>
      if (x + 1 + y =? d)%nat then (sigma U s a * sigma U b t)%nat else O
  | _, _, _ => O
  end.

(** Normalised edge betweenness: the sum over ordered pairs of the
    fraction of shortest paths through the edge, over [n (n - 1)]. *)
Definition betweenness (U : UGraph) (e : node * node) : Q :=
  let n := Z.of_nat (List.length (unodes U)) in
  let pairs :=
    flat_map (fun s => flat_map (fun t => if s =? t then [] else [(s, t)])
                                (unodes U))
             (unodes U) in
  let total :=
    Qsum (map (fun st =>
                 let '(s, t) := st in
                 let k := if fst e =? snd e then O
                          else (through U s t (fst e) (snd e) +
                                through U s t (snd e) (fst e))%nat in
                 match sigma U s t with
                 | O => 0%Q
                 | S _ as c => (Z.of_nat k # Pos.of_nat c)
                 end)
              pairs) in
  if n <=? 1 then Qred total
  else Qred (total / inject_Z (n * (n - 1)))%Q.

Definition edge_betweenness_centrality (U : UGraph) : list (node * node * Q) :=
  map (fun e => (e, betweenness U e)) (uedges U).

(** *** numpy *)

(** Mean and median of a nonempty list, in exact arithmetic. *)
Definition mean (l : list Q) : Q :=
  (Qsum l / inject_Z (Z.of_nat (List.length l)))%Q.

Fixpoint insert_asc (x : Q) (l : list Q) : list Q :=
  match l with
  | [] => [x]
  | y :: l' => if Qle_bool x y then x :: y :: l' else y :: insert_asc x l'
  end.

Definition sort_asc (l : list Q) : list Q := fold_right insert_asc [] l.

Definition median (l : list Q) : Q :=
  let s := sort_asc l in
  let n := List.length s in
  if Nat.even n
  then ((nth (n / 2 - 1) s 0 + nth (n / 2) s 0) / 2)%Q
  else nth (n / 2) s 0%Q.

(** The generator: a 64-bit linear congruential generator. *)

Definition lcg_next (g : N) : N :=
  ((g * 6364136223846793005 + 1442695040888963407) mod 18446744073709551616)%N.

(** The high half of the state is the output word. *)
Definition lcg_out (g : N) : N := (lcg_next g / 4294967296)%N.

Fixpoint extract {A} (k : nat) (l : list A) {struct l} : option (A * list A) :=
  match l with
  | [] => None
  | x :: l' =>
      match k with
      | O => Some (x, l')
      | S k' =>
          match extract k' l' with
          | Some (y, r) => Some (y, x :: r)
          | None => None
          end
      end
  end.

(** Draw the elements one by one, each uniformly among those left. *)
Fixpoint draw_all {A} (fuel : nat) (g : N) (l : list A) : list A * N :=
  match fuel with
  | O => (l, g)
  | S fuel' =>
      let k := N.to_nat (lcg_out g mod N.of_nat (List.length l))%N in
      match extract k l with
      | Some (y, r) =>
          let '(r', g') := draw_all fuel' (lcg_next g) r in
          (y :: r', g')
      | None => (l, g)
      end
  end.

Definition shuffle {A} (g : N) (l : list A) : list A * N :=
  draw_all (List.length l) g l.

(** Two positions drawn without replacement. *)
Definition choice2 (g : N) (l : list node) : res (node * node * N) :=
  let n := List.length l in
  if (n <? 2)%nat then Raise ValueError
  else
    let w := lcg_out g in
    let i := N.to_nat (w mod N.of_nat n)%N in
    let d := S (N.to_nat ((w / N.of_nat n) mod N.of_nat (n - 1))%N) in
    let j := if (i + d <? n)%nat then (i + d)%nat else (i + d - n)%nat in
    match nth_error l i, nth_error l j with
    | Some u, Some v => Ok (u, v, lcg_next g)
    | _, _ => Raise ValueError
    end.

End Ref.

(** ** Concrete worlds for running the package *)

Module Examples.

Definition data (w : attr Q) : EdgeData :=
  mkEdgeData Missing Missing Missing w Missing [].

Definition edge (u v k : Z) (w : attr Q) : EdgeId * EdgeData :=
  ((u, v, k), data w).

(** A world holding one graph, at location 0, and no provider entry. *)
Definition world (g : Graph) : World :=
  mkWorld [g] 0%N (fun _ _ => Raise ValueError).

(** A single node, no edge. *)
Definition lonely : Graph := mkGraph [0] [].

(** A directed triangle. *)
Definition triangle : Graph :=
  mkGraph [0; 1; 2]
          [edge 0 1 0 (Val 1%Q); edge 1 2 0 (Val 1%Q); edge 2 0 0 (Val 1%Q)].

(** A two-way street along three nodes. *)
Definition street : Graph :=
  mkGraph [0; 1; 2]
          [edge 0 1 0 (Val 1%Q); edge 1 0 0 (Val 1%Q);
           edge 1 2 0 (Val 1%Q); edge 2 1 0 (Val 1%Q)].

(** The same street with a [None] travel time on the edge from 1 to 2:
    the edge is there for [has_path], hidden for weighted search. *)
Definition street_null : Graph :=
  mkGraph [0; 1; 2]
          [edge 0 1 0 (Val 1%Q); edge 1 0 0 (Val 1%Q);
           edge 1 2 0 Null; edge 2 1 0 (Val 1%Q)].

(** Two nodes joined both ways by edges without a usable weight. *)
Definition all_null : Graph :=
  mkGraph [0; 1] [edge 0 1 0 Null; edge 1 0 0 Null].

(** Two nodes at distance zero, with a parallel edge. *)
Definition zero_length : Graph :=
  mkGraph [0; 1]
          [edge 0 1 0 (Val 0%Q); edge 1 0 0 (Val 0%Q); edge 0 1 1 (Val 0%Q)].

End Examples.

(** A town on a river, with tagged roads: a bridge both ways between 0
    and 1, a tunnel from 1 to 2, and an untagged way back. *)
Module Town.

Definition road (u v k : Z) (br tu hw : attr tag) (geom : Geometry)
  : EdgeId * EdgeData :=
  ((u, v, k), mkEdgeData br tu hw (Val 1%Q) (Val 1%Q) geom).

Definition riverside : Graph :=
  mkGraph [0; 1; 2]
          [road 0 1 0 (Val (Str "yes")) Missing (Val (Str "primary"))
                [(0, 0); (1, 0)]%Q;
           road 1 0 0 (Val (Str "yes")) Missing (Val (Str "primary"))
                [(1, 0); (0, 0)]%Q;
           road 1 2 0 Missing (Val (Str "yes"))
                (Val (Strs ["residential"; "secondary"]%string))
                [(1, 0); (2, 0)]%Q;
           road 2 1 0 Null Null (Val (Str "residential"))
                [(2, 0); (1, 0)]%Q].

(** A provider that serves [g] for every city. *)
Definition serving (g : Graph) : World :=
  mkWorld [] 0%N (fun _ _ => Ok g).

End Town.

(** * Proofs *)

(** *** The reference implementations meet the laws *)

Lemma extract_Permutation {A} (k : nat) (l : list A) y r :
  Ref.extract k l = Some (y, r) -> Permutation l (y :: r).
Proof.
  revert k y r.
  induction l as [|x l IH]; intros k y r E; simpl in E; [discriminate|].
  destruct k as [|k].
  - injection E as <- <-. apply Permutation_refl.
  - destruct (Ref.extract k l) as [[y' r']|] eqn:E'; [|discriminate].
    injection E as <- <-.
    apply IH in E'.
    eapply Permutation_trans; [apply perm_skip, E'|apply perm_swap].
Qed.

Lemma draw_all_Permutation {A} (fuel : nat) (g : N) (l : list A) :
  Permutation l (fst (Ref.draw_all fuel g l)).
Proof.
  revert g l.
  induction fuel as [|fuel IH]; intros g l; simpl; [apply Permutation_refl|].
  destruct (Ref.extract _ l) as [[y r]|] eqn:E; [|apply Permutation_refl].
  specialize (IH (Ref.lcg_next g) r).
  destruct (Ref.draw_all fuel (Ref.lcg_next g) r) as [r' g'].
  simpl in *.
  eapply Permutation_trans; [eapply extract_Permutation, E|].
  now apply perm_skip.
Qed.

Lemma ref_choice2_short (g : N) (l : list node) :
  (List.length l < 2)%nat -> Ref.choice2 g l = Raise ValueError.
Proof.
  intros Hl. unfold Ref.choice2.
  destruct (Nat.ltb_spec (List.length l) 2); [reflexivity|lia].
Qed.

Lemma ref_choice2_positions (g : N) (l : list node) :
  (2 <= List.length l)%nat ->
  exists i j u v g',
    i <> j /\ nth_error l i = Some u /\ nth_error l j = Some v /\
    Ref.choice2 g l = Ok (u, v, g').
Proof.
  intros Hl. unfold Ref.choice2.
  destruct (Nat.ltb_spec (List.length l) 2) as [Hlt|_]; [lia|].
  set (n := List.length l) in *.
  set (w := Ref.lcg_out g).
  set (i := N.to_nat (w mod N.of_nat n)%N).
  set (d := S (N.to_nat ((w / N.of_nat n) mod N.of_nat (n - 1))%N)).
  assert (Hi : (i < n)%nat).
  { unfold i.
    assert (Hq : (w mod N.of_nat n < N.of_nat n)%N) by (apply N.mod_lt; lia).
    revert Hq. generalize (w mod N.of_nat n)%N. lia. }
  assert (Hd : (1 <= d <= n - 1)%nat).
  { unfold d.
    assert (Hq : ((w / N.of_nat n) mod N.of_nat (n - 1) < N.of_nat (n - 1))%N)
      by (apply N.mod_lt; lia).
    revert Hq. generalize ((w / N.of_nat n) mod N.of_nat (n - 1))%N. lia. }
  set (j := if (i + d <? n)%nat then (i + d)%nat else (i + d - n)%nat).
  assert (Hj : (j < n)%nat /\ i <> j).
  { unfold j. destruct (Nat.ltb_spec (i + d) n); lia. }
  destruct Hj as [Hj Hij].
  exists i, j, (nth i l 0), (nth j l 0), (Ref.lcg_next g).
  rewrite (nth_error_nth' l 0 Hi), (nth_error_nth' l 0 Hj).
  repeat split; assumption.
Qed.

#[export] Instance ref_numpy : NumpyRandom := {|
  np_mean := Ref.mean;
  np_median := Ref.median;
  Generator := N;
  seeded := fun s => s;
  shuffle := fun A => @Ref.shuffle A;
  choice2 := Ref.choice2;
  shuffle_perm := fun A g l => draw_all_Permutation (List.length l) g l;
  choice2_short := ref_choice2_short;
  choice2_positions := ref_choice2_positions
|}.

Lemma ref_betweenness_keys (U : UGraph) :
  map fst (Ref.edge_betweenness_centrality U) = uedges U.
Proof.
  unfold Ref.edge_betweenness_centrality.
  rewrite map_map. simpl. apply map_id.
Qed.

#[export] Instance ref_networkx : NetworkX := {|
  weakly_connected_components := Ref.weakly_connected_components;
  has_path := Ref.has_path;
  astar_path_length := Ref.astar_path_length;
  edge_betweenness_centrality := Ref.edge_betweenness_centrality;
  edge_betweenness_keys := ref_betweenness_keys
|}.

(** Arithmetic without rounding error: what binary64 does on the small
    dyadic values of the examples. *)
#[export] Instance exact_floats : Float64 := {|
  fl := fun x => x;
  fl_monotone := fun x y H => H;
  fl_integer := fun z _ => Qeq_refl (inject_Z z)
|}.

(** Two geometries intersect when they share a vertex. *)
#[export] Instance ref_shapely : Shapely := {|
  intersects := fun a b =>
    existsb (fun p => existsb (fun q => Qeq_bool (fst p) (fst q) &&
                                        Qeq_bool (snd p) (snd q)) b) a
|}.

(** ** Rounding *)

Lemma fl_compat `{Float64} (x y : Q) : (x == y)%Q -> (fl x == fl y)%Q.
Proof.
  intros E. apply Qle_antisym; apply fl_monotone; rewrite E; apply Qle_refl.
Qed.

(** ** The store *)

Lemma list_set_app_last {A} (h : list A) (x y : A) :
  list_set (h ++ [x]) (List.length h) y = h ++ [y].
Proof.
  induction h as [|a h IH]; simpl; [reflexivity|now rewrite IH].
Qed.

Lemma nth_error_app_last {A} (h : list A) (x : A) :
  nth_error (h ++ [x]) (List.length h) = Some x.
Proof.
  rewrite nth_error_app2, Nat.sub_diag by lia. reflexivity.
Qed.

Lemma nth_error_app_old {A} (h extra : list A) (l : nat) (x : A) :
  nth_error h l = Some x -> nth_error (h ++ extra) l = Some x.
Proof.
  intros E. rewrite nth_error_app1; [assumption|].
  apply nth_error_Some. congruence.
Qed.

Section Runs.
Context `{FA : Float64} `{SH : Shapely} `{NP : NumpyRandom} `{NX : NetworkX}.

Lemma default_rng_run (seed : option N) (w : World) :
  default_rng seed w = (Ok (fst (rng_of seed w)), snd (rng_of seed w)).
Proof. destruct seed; reflexivity. Qed.

Lemma rng_of_heap (seed : option N) (w : World) :
  heap (snd (rng_of seed w)) = heap w /\
  provider (snd (rng_of seed w)) = provider w.
Proof. destruct seed; split; reflexivity. Qed.

Lemma deref_run (w : World) (l : loc) (g : Graph) :
  nth_error (heap w) l = Some g -> deref l w = (Ok g, w).
Proof. intros E. unfold deref. now rewrite E. Qed.

Lemma remove_listed_run (ids : list EdgeId) :
  forall (h : list Graph) (g : Graph) (n : Z) ent prov,
    remove_listed (List.length h) ids n (mkWorld (h ++ [g]) ent prov) =
    (Ok (snd (apply_removals g ids n)),
     mkWorld (h ++ [fst (apply_removals g ids n)]) ent prov).
Proof.
  induction ids as [|e rest IH]; intros h g n ent prov; simpl.
  - reflexivity.
  - unfold bind at 1.
    rewrite (deref_run _ _ g) by apply nth_error_app_last.
    destruct (has_edge g e).
    + unfold bind at 1, store at 1. simpl.
      rewrite list_set_app_last. apply IH.
    + apply IH.
Qed.

Lemma sample_od_pairs_run (w : World) (G : loc) (g : Graph)
    (n_pairs : Z) (seed : option N) :
  nth_error (heap w) G = Some g ->
  sample_od_pairs G n_pairs seed w =
  (sample_pairs_in g n_pairs (fst (rng_of seed w)), snd (rng_of seed w)).
Proof.
  intros E. unfold sample_od_pairs, bind.
  rewrite default_rng_run.
  rewrite (deref_run _ _ g)
    by (destruct (rng_of_heap seed w) as [-> _]; exact E).
  reflexivity.
Qed.

(** What one call of the simulator does to the world and returns. *)
Lemma simulate_run (w : World) (G : loc) (g : Graph) (ids : list EdgeId)
    (n_pairs : Z) (penalty_ratio : Q) (seed : option N) :
  nth_error (heap w) G = Some g ->
  simulate_single_shock G ids n_pairs penalty_ratio seed w =
  let after := fst (apply_removals g ids 0) in
  let k := snd (apply_removals g ids 0) in
  let w1 := mkWorld (heap w ++ [after]) (os_entropy w) (provider w) in
  if k =? 0 then (Ok neutral, w1)
  else
    (res_bind (sample_pairs_in g n_pairs (fst (rng_of seed w1)))
              (fun pairs => shock_metrics g after k pairs penalty_ratio),
     snd (rng_of seed w1)).
Proof.
  intros E. unfold simulate_single_shock, graph_copy.
  unfold bind at 1. unfold bind at 1.
  rewrite (deref_run _ _ g E). unfold alloc.
  unfold bind at 1. rewrite remove_listed_run.
  cbv zeta.
  destruct (snd (apply_removals g ids 0) =? 0) eqn:K; [reflexivity|].
  set (after := fst (apply_removals g ids 0)).
  set (w1 := mkWorld (heap w ++ [after]) (os_entropy w) (provider w)).
  assert (E1 : nth_error (heap w1) G = Some g)
    by (apply nth_error_app_old, E).
  unfold bind at 1. rewrite (sample_od_pairs_run w1 G g _ _ E1).
  destruct (sample_pairs_in g n_pairs (fst (rng_of seed w1))) as [pairs|e];
    [|reflexivity].
  destruct (rng_of_heap seed w1) as [Hh _].
  unfold bind at 1. rewrite (deref_run _ _ g) by (rewrite Hh; exact E1).
  unfold bind at 1.
  rewrite (deref_run _ _ after)
    by (rewrite Hh; apply nth_error_app_last).
  reflexivity.
Qed.

Lemma simulate_dangling (w : World) (G : loc) (ids : list EdgeId)
    (n_pairs : Z) (penalty_ratio : Q) (seed : option N) :
  nth_error (heap w) G = None ->
  simulate_single_shock G ids n_pairs penalty_ratio seed w =
  (Raise NodeNotFound, w).
Proof.
  intros E. unfold simulate_single_shock, graph_copy, bind, deref.
  now rewrite E.
Qed.

End Runs.

(** ** The shock simulator *)

Lemma apply_removals_absent (g : Graph) (ids : list EdgeId) (n : Z) :
  (forall e, In e ids -> has_edge g e = false) ->
  apply_removals g ids n = (g, n).
Proof.
  induction ids as [|e rest IH]; intros Habs; simpl; [reflexivity|].
  rewrite (Habs e) by (left; reflexivity).
  apply IH. intros e' He'. apply Habs. now right.
Qed.

Section SimulatorFacts.
Context `{FA : Float64} `{NP : NumpyRandom} `{NX : NetworkX}.

(** C6. If none of the listed edge identifiers is in the network, the
    simulator returns the neutral result
    [avg_ratio = 1, median_ratio = 1, pct_disconnected = 0,
     n_removed_edges = 0, n_pairs = 0]; the only change to the world is the
    private copy: no generator is made (the OS entropy is untouched even
    for [seed = None]) and no pair is sampled. *)
Theorem neutral_when_nothing_removed
    (w : World) (G : loc) (g : Graph) (ids : list EdgeId)
    (n_pairs : Z) (penalty_ratio : Q) (seed : option N) :
  nth_error (heap w) G = Some g ->
  (forall e, In e ids -> has_edge g e = false) ->
  simulate_single_shock G ids n_pairs penalty_ratio seed w =
  (Ok (mkMetrics 1 1 0 0 0),
   mkWorld (heap w ++ [g]) (os_entropy w) (provider w)).
Proof.
  intros E Habs.
  rewrite (simulate_run w G g) by exact E.
  rewrite (apply_removals_absent g ids 0 Habs). reflexivity.
Qed.

Lemma simulate_heap (w : World) (G : loc) (ids : list EdgeId)
    (n_pairs : Z) (penalty_ratio : Q) (seed : option N) :
  exists extra,
    heap (snd (simulate_single_shock G ids n_pairs penalty_ratio seed w)) =
    heap w ++ extra.
Proof.
  destruct (nth_error (heap w) G) as [g|] eqn:E.
  - rewrite (simulate_run w G g) by exact E. cbv zeta.
    destruct (_ =? 0).
    + eexists. reflexivity.
    + simpl. eexists.
      match goal with
      | |- heap (snd (rng_of seed ?w1)) = _ =>
          destruct (rng_of_heap seed w1) as [-> _]
      end.
      reflexivity.
  - rewrite simulate_dangling by exact E.
    exists []. simpl. now rewrite app_nil_r.
Qed.

(** C9. The simulator never changes its input network: after the call the
    object behind [G] holds the same nodes, edges and attributes as before,
    and so does every graph that existed before the call; removals reach
    only the private copy. *)
Theorem simulate_preserves_input
    (w : World) (G : loc) (ids : list EdgeId)
    (n_pairs : Z) (penalty_ratio : Q) (seed : option N) :
  let w' := snd (simulate_single_shock G ids n_pairs penalty_ratio seed w) in
  nth_error (heap w') G = nth_error (heap w) G /\
  firstn (List.length (heap w)) (heap w') = heap w.
Proof.
  cbv zeta.
  destruct (simulate_heap w G ids n_pairs penalty_ratio seed) as [extra Hh].
  split.
  - destruct (nth_error (heap w) G) as [g|] eqn:E.
    + rewrite Hh. now apply nth_error_app_old.
    + now rewrite simulate_dangling by exact E.
  - rewrite Hh, firstn_app, Nat.sub_diag, firstn_all. simpl.
    apply app_nil_r.
Qed.

End SimulatorFacts.

(** ** Scoring of the sampled pairs *)

Section Scoring.
Context `{FA : Float64} `{NP : NumpyRandom} `{NX : NetworkX}.

Lemma score_pair_counts (b a : Graph) (weight : string) (penalty : Q)
    (ratios ratios' : list Q) (d d' : Z) (p : node * node) :
  score_pair b a weight penalty (ratios, d) p = Ok (ratios', d') ->
  (if has_baseline b weight p
   then List.length ratios' = S (List.length ratios) /\
        d' = d + (if cut_off a weight p then 1 else 0)
   else ratios' = ratios /\ d' = d).
Proof.
  unfold score_pair, has_baseline, cut_off. destruct p as [u v]. simpl.
  destruct (astar_path_length b u v weight) as [base|[]];
    try discriminate.
  - destruct (astar_path_length a u v weight) as [dam|[]];
      try discriminate.
    + unfold truediv. destruct (Qeq_bool base 0); [discriminate|]. simpl.
      intros [= <- <-]. rewrite length_app. simpl. split; lia.
    + intros [= <- <-]. rewrite length_app. simpl. split; lia.
  - intros [= <- <-]. split; reflexivity.
Qed.

Lemma score_pairs_counts (b a : Graph) (weight : string) (penalty : Q)
    (pairs : list (node * node)) :
  forall (ratios ratios' : list Q) (d d' : Z),
    score_pairs b a weight penalty pairs (ratios, d) = Ok (ratios', d') ->
    List.length ratios' =
      (List.length ratios + List.length (retained b weight pairs))%nat /\
    d' = d + Z.of_nat (List.length
                         (filter (cut_off a weight)
                                 (retained b weight pairs))).
Proof.
  induction pairs as [|p rest IH]; intros ratios ratios' d d' E.
  - injection E as <- <-. simpl. split; lia.
  - cbn [score_pairs] in E.
    destruct (score_pair b a weight penalty (ratios, d) p)
      as [[r1 d1]|e] eqn:E1; [|discriminate].
    cbn [res_bind] in E. apply IH in E. destruct E as [El Ed].
    apply score_pair_counts in E1.
    unfold retained in *. simpl.
    destruct (has_baseline b weight p); simpl.
    + destruct E1 as [E1 ->]. rewrite El, E1. split; [lia|].
      destruct (cut_off a weight p); simpl; lia.
    + destruct E1 as [-> ->]. split; assumption.
Qed.

(** C8 (amended). For a retained pair: when the damaged length equals the
    baseline length and that length is not zero, the ratio appended is
    equal to 1 and the disconnection counter is unchanged; when the pair
    is unreachable in the damaged network, the ratio appended is exactly
    the penalty constant and the counter grows by one. *)
Theorem ratio_of_retained_pair
    (G_before G_after : Graph) (weight : string) (penalty_ratio : Q)
    (ratios : list Q) (disconnected : Z) (u v : node) (baseline : Q) :
  astar_path_length G_before u v weight = Ok baseline ->
  (forall damaged,
      astar_path_length G_after u v weight = Ok damaged ->
      (damaged == baseline)%Q -> ~ (baseline == 0)%Q ->
      exists r,
        score_pair G_before G_after weight penalty_ratio
                   (ratios, disconnected) (u, v)
        = Ok (ratios ++ [r], disconnected) /\ (r == 1)%Q) /\
  (astar_path_length G_after u v weight = Raise NetworkXNoPath ->
   score_pair G_before G_after weight penalty_ratio
              (ratios, disconnected) (u, v)
   = Ok (ratios ++ [penalty_ratio], disconnected + 1)).
Proof.
  intros Hb. split.
  - intros damaged Hd Heq Hnz. unfold score_pair. rewrite Hb, Hd.
    unfold truediv.
    destruct (Qeq_bool baseline 0) eqn:Z0.
    + apply Qeq_bool_iff in Z0. contradiction.
    + simpl. eexists. split; [reflexivity|].
      rewrite (fl_compat (damaged / baseline) 1).
      * apply (fl_integer 1). unfold max_exact_int. simpl. lia.
      * rewrite Heq. now apply Qmult_inv_r.
  - intros Hd. unfold score_pair. now rewrite Hb, Hd.
Qed.

End Scoring.

(** ** Counting removed edges *)

Lemma EdgeId_eqb_eq (a b : EdgeId) : EdgeId_eqb a b = true <-> a = b.
Proof.
  destruct a as [[u1 v1] k1], b as [[u2 v2] k2]. unfold EdgeId_eqb.
  rewrite !andb_true_iff, !Z.eqb_eq.
  split; [intros [[-> ->] ->]; reflexivity|intros [= -> -> ->]; auto].
Qed.

Lemma has_edge_In (g : Graph) (e : EdgeId) :
  has_edge g e = true <-> In e (edge_ids g).
Proof.
  unfold has_edge. rewrite existsb_exists. split.
  - intros [x [Hx E]]. apply EdgeId_eqb_eq in E. now subst.
  - intros H. exists e. split; [assumption|now apply EdgeId_eqb_eq].
Qed.

Lemma filter_other_ids (e : EdgeId) (l : list (EdgeId * EdgeData)) :
  ~ In e (map fst l) ->
  filter (fun r => negb (EdgeId_eqb e (fst r))) l = l.
Proof.
  induction l as [|r l IH]; simpl; intros Hn; [reflexivity|].
  destruct (EdgeId_eqb e (fst r)) eqn:E.
  - apply EdgeId_eqb_eq in E. exfalso. apply Hn. now left.
  - simpl. f_equal. apply IH. intros H. apply Hn. now right.
Qed.

Lemma filter_one_id (e : EdgeId) (l : list (EdgeId * EdgeData)) :
  NoDup (map fst l) -> In e (map fst l) ->
  S (List.length (filter (fun r => negb (EdgeId_eqb e (fst r))) l))
  = List.length l.
Proof.
  induction l as [|r l IH]; simpl; intros Hnd Hin; [contradiction|].
  inversion Hnd as [|? ? Hr Hl]; subst.
  destruct (EdgeId_eqb e (fst r)) eqn:E; simpl.
  - apply EdgeId_eqb_eq in E. subst e.
    now rewrite filter_other_ids.
  - f_equal. apply IH; [assumption|].
    destruct Hin as [Hin|Hin]; [|assumption].
    subst e. rewrite (proj2 (EdgeId_eqb_eq _ _) eq_refl) in E. discriminate.
Qed.

Lemma NoDup_ids_filter (f : EdgeId * EdgeData -> bool)
    (l : list (EdgeId * EdgeData)) :
  NoDup (map fst l) -> NoDup (map fst (filter f l)).
Proof.
  induction l as [|r l IH]; simpl; intros Hnd; [constructor|].
  inversion Hnd as [|? ? Hr Hl]; subst.
  destruct (f r); simpl; [|now apply IH].
  constructor; [|now apply IH].
  intros Hin. apply Hr.
  apply in_map_iff in Hin. destruct Hin as [x [Ex Hx]].
  apply filter_In in Hx. apply in_map_iff. exists x. tauto.
Qed.

(** With distinct edge identifiers, the count returned by the removal loop
    is the number of edges the damaged graph has lost. *)
Lemma apply_removals_count (ids : list EdgeId) :
  forall (g : Graph) (n : Z),
    NoDup (edge_ids g) ->
    Z.of_nat (List.length (edges g)) =
    Z.of_nat (List.length (edges (fst (apply_removals g ids n))))
    + (snd (apply_removals g ids n) - n).
Proof.
  induction ids as [|e rest IH]; intros g n Hnd; simpl; [lia|].
  destruct (has_edge g e) eqn:He.
  - apply has_edge_In in He.
    pose proof (filter_one_id e (edges g) Hnd He) as Hlen.
    specialize (IH (remove_edge g e) (n + 1)
                   (NoDup_ids_filter _ _ Hnd)).
    simpl in IH. lia.
  - now apply IH.
Qed.

Section Metrics.
Context `{FA : Float64} `{NP : NumpyRandom} `{NX : NetworkX}.

Lemma sample_pairs_nonempty (g : Graph) (n_pairs : Z) (rng : Generator)
    (pairs : list (node * node)) :
  sample_pairs_in g n_pairs rng = Ok pairs -> pairs <> [].
Proof.
  unfold sample_pairs_in.
  destruct (_largest_component g) as [H|]; [simpl|discriminate].
  destruct (sample_loop _ _ _ _ _ _ _) as [[ps a]|]; [simpl|discriminate].
  destruct ps; [discriminate|]. intros [= <-]. discriminate.
Qed.

Lemma rng_of_copy (seed : option N) (w : World) (h : list Graph) :
  fst (rng_of seed (mkWorld h (os_entropy w) (provider w))) =
  fst (rng_of seed w).
Proof. destruct seed; reflexivity. Qed.

(** A run that removed an edge and returned: the pairs it sampled and the
    metrics computed from them. *)
Lemma simulate_measured (w w' : World) (G : loc) (g : Graph)
    (ids : list EdgeId) (n : Z) (penalty : Q) (seed : option N)
    (m : SimulationMetrics) :
  nth_error (heap w) G = Some g ->
  simulate_single_shock G ids n penalty seed w = (Ok m, w') ->
  n_removed_edges m <> 0 ->
  exists pairs,
    sample_pairs_in g n (fst (rng_of seed w)) = Ok pairs /\
    pairs <> [] /\
    snd (apply_removals g ids 0) <> 0 /\
    shock_metrics g (fst (apply_removals g ids 0))
                  (snd (apply_removals g ids 0)) pairs penalty = Ok m.
Proof.
  intros E Hrun Hk.
  rewrite (simulate_run w G g) in Hrun by exact E. cbv zeta in Hrun.
  destruct (snd (apply_removals g ids 0) =? 0) eqn:K.
  - injection Hrun as <- _. now elim Hk.
  - apply Z.eqb_neq in K.
    rewrite rng_of_copy in Hrun.
    destruct (sample_pairs_in g n (fst (rng_of seed w))) as [pairs|e] eqn:S;
      [|discriminate].
    simpl in Hrun. injection Hrun as Hm _.
    exists pairs. repeat split; try assumption.
    now apply sample_pairs_nonempty in S.
Qed.

(** C2 (amended). In a run that removes at least one edge and returns,
    the returned [n_pairs] is the number of sampled pairs, those without
    a baseline path included, and when a ratio was recorded
    [pct_disconnected] is 100 x disconnected / sampled-pair count (as
    floats); pairs
    without a baseline path are left out of the ratios only (one ratio per
    retained pair, mean and median over those).  When every sampled pair
    has a baseline path the two counts agree. *)
Theorem n_pairs_counts_sampled_pairs
    (w w' : World) (G : loc) (g : Graph)
    (ids : list EdgeId) (n : Z) (penalty : Q) (seed : option N)
    (m : SimulationMetrics) :
  nth_error (heap w) G = Some g ->
  simulate_single_shock G ids n penalty seed w = (Ok m, w') ->
  n_removed_edges m <> 0 ->
  let after := fst (apply_removals g ids 0) in
  let weight := _weight_attr g in
  exists pairs ratios disconnected,
    sample_pairs_in g n (fst (rng_of seed w)) = Ok pairs /\
    score_pairs g after weight penalty pairs ([], 0)
      = Ok (ratios, disconnected) /\
    List.length ratios = List.length (retained g weight pairs) /\
    disconnected =
      Z.of_nat (List.length (filter (cut_off after weight)
                                    (retained g weight pairs))) /\
    n_pairs m = Z.of_nat (List.length pairs) /\
    (ratios <> [] ->
     avg_ratio m = np_mean ratios /\
     median_ratio m = np_median ratios /\
     pct_disconnected m =
       fl (fl (100 * inject_Z disconnected)
           / inject_Z (Z.of_nat (List.length pairs)))%Q) /\
    (retained g weight pairs = pairs ->
     n_pairs m = Z.of_nat (List.length (retained g weight pairs))).
Proof.
  intros E Hrun Hk after weight.
  destruct (simulate_measured w w' G g ids n penalty seed m E Hrun Hk)
    as [pairs [S [_ [_ Hm]]]].
  unfold shock_metrics in Hm. fold after weight in Hm.
  destruct (score_pairs g after weight penalty pairs ([], 0))
    as [[ratios d]|e] eqn:Sc; [|discriminate].
  cbn [res_bind] in Hm.
  destruct (score_pairs_counts _ _ _ _ _ _ _ _ _ Sc) as [Hl Hd].
  exists pairs, ratios, d.
  assert (Hn : n_pairs m = Z.of_nat (List.length pairs))
    by (destruct ratios; injection Hm as <-; reflexivity).
  repeat split; try assumption.
  - destruct ratios; [congruence|injection Hm as <-; reflexivity].
  - destruct ratios; [congruence|injection Hm as <-; reflexivity].
  - destruct ratios; [congruence|injection Hm as <-; reflexivity].
  - intros ->. exact Hn.
Qed.

(** C4 (amended). When at least one edge is removed and no sampled pair
    has a baseline path, the result is the saturated one: mean and median
    equal to the penalty constant, 100 percent disconnected, the count of
    removed edges, and [n_pairs] equal to the number of sampled pairs,
    which is at least one.  With distinct edge identifiers the count of
    removed edges is the number of edges the damaged copy has lost. *)
Theorem saturated_result_counts_sampled_pairs
    (w w' : World) (G : loc) (g : Graph)
    (ids : list EdgeId) (n : Z) (penalty : Q) (seed : option N)
    (m : SimulationMetrics) :
  nth_error (heap w) G = Some g ->
  simulate_single_shock G ids n penalty seed w = (Ok m, w') ->
  n_removed_edges m <> 0 ->
  let after := fst (apply_removals g ids 0) in
  exists pairs,
    sample_pairs_in g n (fst (rng_of seed w)) = Ok pairs /\
    (retained g (_weight_attr g) pairs = [] ->
     m = mkMetrics penalty penalty 100
                   (snd (apply_removals g ids 0))
                   (Z.of_nat (List.length pairs)) /\
     1 <= n_pairs m) /\
    (NoDup (edge_ids g) ->
     n_removed_edges m =
       Z.of_nat (List.length (edges g))
       - Z.of_nat (List.length (edges after))).
Proof.
  intros E Hrun Hk after.
  destruct (simulate_measured w w' G g ids n penalty seed m E Hrun Hk)
    as [pairs [S [Hne [_ Hm]]]].
  exists pairs. split; [exact S|].
  unfold shock_metrics in Hm. fold after in Hm.
  destruct (score_pairs g after (_weight_attr g) penalty pairs ([], 0))
    as [[ratios d]|e] eqn:Sc; [|discriminate].
  cbn [res_bind] in Hm.
  destruct (score_pairs_counts _ _ _ _ _ _ _ _ _ Sc) as [Hl _].
  split.
  - intros Hret. rewrite Hret in Hl. simpl in Hl.
    destruct ratios; [|discriminate].
    injection Hm as <-. split; [reflexivity|]. simpl.
    destruct pairs; [congruence|simpl; lia].
  - intros Hnd.
    pose proof (apply_removals_count ids g 0 Hnd) as Hc. fold after in Hc.
    destruct ratios; injection Hm as <-; simpl; lia.
Qed.

End Metrics.

(** ** The connectivity sampler *)

Section Sampler.
Context `{FA : Float64} `{NP : NumpyRandom} `{NX : NetworkX}.

Lemma choice2_distinct (rng rng' : Generator) (l : list node) (u v : node) :
  NoDup l -> choice2 rng l = Ok (u, v, rng') ->
  u <> v /\ In u l /\ In v l.
Proof.
  intros Hnd E.
  destruct (Nat.lt_ge_cases (List.length l) 2) as [Hs|Hl].
  - rewrite (choice2_short rng l Hs) in E. discriminate.
  - destruct (choice2_positions rng l Hl)
      as [i [j [u0 [v0 [g0 [Hij [Hi [Hj E0]]]]]]]].
    rewrite E0 in E. injection E as <- <- _.
    repeat split; [|eapply nth_error_In; eassumption..].
    intros ->. apply Hij.
    apply (proj1 (NoDup_nth_error l) Hnd).
    + apply nth_error_Some. congruence.
    + congruence.
Qed.

(** What the loop guarantees when it ends normally. *)
Lemma sample_loop_spec (H : Graph) (ns : list node) (n : Z) :
  NoDup ns ->
  forall (remaining : nat) (rng : Generator)
         (pairs pairs' : list (node * node)) (attempts attempts' : Z),
    sample_loop H ns n remaining rng pairs attempts = Ok (pairs', attempts') ->
    attempts <= attempts' <= attempts + Z.of_nat remaining /\
    Z.of_nat (List.length pairs')
      <= Z.max (Z.of_nat (List.length pairs)) n /\
    (Z.of_nat (List.length pairs') < n ->
     attempts' = attempts + Z.of_nat remaining) /\
    exists new,
      pairs' = pairs ++ new /\
      forall u v, In (u, v) new ->
                  u <> v /\ In u ns /\ In v ns /\ has_path H u v = true.
Proof.
  intros Hnd.
  induction remaining as [|remaining IH];
    intros rng pairs pairs' attempts attempts' E; cbn [sample_loop] in E.
  - injection E as <- <-.
    split; [lia|split; [lia|split; [lia|]]].
    exists []. rewrite app_nil_r. split; [reflexivity|contradiction].
  - destruct (Z.ltb_spec (Z.of_nat (List.length pairs)) n) as [Hlt|Hge].
    + destruct (choice2 rng ns) as [[[u v] rng']|e] eqn:C; [|discriminate].
      cbn [res_bind] in E.
      destruct (choice2_distinct _ _ _ _ _ Hnd C) as [Huv [Hu Hv]].
      destruct (has_path H u v) eqn:P.
      * apply IH in E.
        destruct E as [Ha [Hl [Hb [new [-> Hnew]]]]].
        rewrite !length_app in *. simpl List.length in *.
        split; [lia|split; [lia|split; [lia|]]].
        exists ((u, v) :: new). rewrite <- app_assoc. split; [reflexivity|].
        intros a b [[= <- <-]|Hin]; [auto|now apply Hnew].
      * apply IH in E.
        destruct E as [Ha [Hl [Hb [new [-> Hnew]]]]].
        split; [lia|split; [lia|split; [lia|]]].
        exists new. split; [reflexivity|assumption].
    + injection E as <- <-.
      split; [lia|split; [lia|split; [lia|]]].
      exists []. rewrite app_nil_r. split; [reflexivity|contradiction].
Qed.

Lemma NoDup_component_nodes (g H : Graph) :
  NoDup (nodes g) -> _largest_component g = Ok H -> NoDup (nodes H).
Proof.
  intros Hnd. unfold _largest_component.
  destruct (max_by_len _) as [comp|]; [|discriminate].
  intros [= <-]. simpl. now apply NoDup_filter.
Qed.

(** C7 (amended). The sampler never returns a pair with equal endpoints;
    it returns at least one and at most the desired number of pairs;
    it makes at most 20 x desired-count draws, and when the loop ends with
    no pair the whole budget was used and the sampling-exhaustion error
    ([RuntimeError]) is raised.  When the largest component has fewer than
    two nodes the sampler fails as well: with numpy's [ValueError] at the
    first draw when the desired count is at least one, and with the
    sampling-exhaustion error when no draw is attempted. *)
Theorem sampler_contract
    (w : World) (G : loc) (g : Graph) (n : Z) (seed : option N) :
  nth_error (heap w) G = Some g ->
  NoDup (nodes g) ->
  let r := fst (sample_od_pairs G n seed w) in
  let rng := fst (rng_of seed w) in
  (forall pairs, r = Ok pairs ->
     (forall u v, In (u, v) pairs -> u <> v) /\
     1 <= Z.of_nat (List.length pairs) <= n) /\
  (forall H pairs attempts,
     _largest_component g = Ok H ->
     sample_loop H (nodes H) n (Z.to_nat (n * 20)) rng [] 0
       = Ok (pairs, attempts) ->
     0 <= attempts <= Z.max 0 (20 * n) /\
     (pairs = [] ->
      r = Raise RuntimeError /\ attempts = Z.max 0 (20 * n))) /\
  (forall H,
     _largest_component g = Ok H ->
     (List.length (nodes H) < 2)%nat ->
     r = Raise (if 1 <=? n then ValueError else RuntimeError)).
Proof.
  intros E Hnd r rng. subst r.
  rewrite (sample_od_pairs_run w G g n seed E). cbn [fst]. fold rng.
  unfold sample_pairs_in.
  split; [|split].
  - intros pairs Hr.
    destruct (_largest_component g) as [H|] eqn:L; [|discriminate].
    cbn [res_bind] in Hr.
    destruct (sample_loop H (nodes H) n (Z.to_nat (n * 20)) rng [] 0)
      as [[ps a]|] eqn:S; [|discriminate].
    cbn [res_bind] in Hr.
    destruct ps as [|p ps]; [discriminate|]. injection Hr as <-.
    apply (sample_loop_spec H (nodes H) n
             (NoDup_component_nodes g H Hnd L)) in S.
    destruct S as [_ [Hl [_ [new [Hp Hnew]]]]].
    simpl in Hp. subst new. simpl in Hl |- *. split; [|lia].
    intros u v Hin. now apply Hnew.
  - intros H pairs attempts L S. rewrite L. cbn [res_bind]. rewrite S.
    apply (sample_loop_spec H (nodes H) n
             (NoDup_component_nodes g H Hnd L)) in S.
    destruct S as [Ha [_ [Hb _]]].
    split; [lia|].
    intros ->. split; [reflexivity|].
    simpl in Hb.
    destruct (Z.lt_ge_cases 0 n); [rewrite Hb by lia|]; lia.
  - intros H L Hs. rewrite L. cbn [res_bind].
    destruct (Z.leb_spec 1 n) as [Hn|Hn].
    + destruct (Z.to_nat (n * 20)) as [|k] eqn:K; [lia|].
      cbn [sample_loop]. simpl List.length.
      destruct (Z.ltb_spec (Z.of_nat 0) n) as [_|]; [|lia].
      now rewrite (choice2_short rng (nodes H) Hs).
    + replace (Z.to_nat (n * 20)) with O by lia. reflexivity.
Qed.

End Sampler.

(** ** Edge selection *)

Lemma py_int_floor (x : Q) : (0 <= x)%Q -> py_int x = Qfloor x.
Proof.
  destruct x as [a b]. unfold Qle, py_int, Qfloor. simpl. intros Ha.
  apply Z.quot_div_nonneg; lia.
Qed.

(** For a fraction in [0,1] of [n >= 1] items, the count is the floor of
    the floating-point product, raised to one, and never more than [n]. *)
Lemma n_selected_floor `{Float64} (n : nat) (severity : Q) :
  (0 <= severity)%Q -> (severity <= 1)%Q -> (1 <= n)%nat ->
  Z.of_nat n <= max_exact_int ->
  n_selected n severity
    = Z.max 1 (Qfloor (fl (inject_Z (Z.of_nat n) * severity))) /\
  1 <= n_selected n severity <= Z.of_nat n.
Proof.
  intros H0 H1 Hn Hmax. unfold n_selected.
  assert (Hpos : (0 <= fl (inject_Z (Z.of_nat n) * severity))%Q).
  { apply Qle_trans with (fl (inject_Z 0)).
    - apply Qle_lteq. right. apply Qeq_sym, fl_integer.
      unfold max_exact_int. simpl. lia.
    - apply fl_monotone.
      apply Qmult_le_0_compat; [|assumption].
      unfold Qle. simpl. lia. }
  rewrite (py_int_floor _ Hpos). split; [reflexivity|].
  assert (Hup : Qfloor (fl (inject_Z (Z.of_nat n) * severity)) <= Z.of_nat n).
  { rewrite <- (Qfloor_Z (Z.of_nat n)) at 2.
    apply Qfloor_resp_le.
    apply Qle_trans with (fl (inject_Z (Z.of_nat n))).
    - apply fl_monotone.
      rewrite <- (Qmult_1_r (inject_Z (Z.of_nat n))) at 2.
      rewrite !(Qmult_comm (inject_Z (Z.of_nat n))).
      apply Qmult_le_compat_r; [assumption|].
      unfold Qle. simpl. lia.
    - apply Qle_lteq. right. apply fl_integer. lia. }
  lia.
Qed.

Section SelectionFacts.
Context `{FA : Float64} `{SH : Shapely} `{NP : NumpyRandom} `{NX : NetworkX}.

Lemma select_run (w : World) (G : loc) (g : Graph) (T : GeoDataFrame)
    (scenario : string) (severity : Q)
    (polys : option (list Geometry)) (seed : option N) :
  nth_error (heap w) G = Some g ->
  graph_to_edges_gdf g = Ok T ->
  str_in scenario SCENARIOS = true ->
  select_edges_for_scenario G scenario severity polys seed w =
  (scenario_candidates g T (fst (rng_of seed w)) scenario severity polys,
   snd (rng_of seed w)).
Proof.
  intros E HT Hs. unfold select_edges_for_scenario. rewrite Hs.
  cbn [negb]. unfold bind at 1. rewrite (deref_run w G g E).
  unfold bind at 1, lift at 1. rewrite HT.
  unfold bind at 1. rewrite default_rng_run. reflexivity.
Qed.

Lemma gdf_of_nonempty (g : Graph) :
  edges g <> [] -> graph_to_edges_gdf g = Ok (edges g).
Proof.
  unfold graph_to_edges_gdf. destruct (edges g); [congruence|reflexivity].
Qed.

(** C1 (amended). On a network with [E >= 1] edges, for a severity [s] in
    [0,1] and a supplied seed, the Random Failure selection returns
    exactly [max(1, floor(s * E))] edge identifiers, the product being the
    floating-point one: the first ones of a permutation of the network's
    edges fixed by the seed.  The call leaves the world as it is, and any
    call on the same network, severity and seed returns the same list in
    the same order. *)
Theorem random_failure_selection
    (w : World) (G : loc) (g : Graph) (severity : Q)
    (polys : option (list Geometry)) (seed : N) :
  nth_error (heap w) G = Some g ->
  edges g <> [] ->
  Z.of_nat (List.length (edges g)) <= max_exact_int ->
  (0 <= severity)%Q -> (severity <= 1)%Q ->
  exists ids rest,
    select_edges_for_scenario G "Random Failure" severity polys (Some seed) w
      = (Ok ids, w) /\
    Z.of_nat (List.length ids)
      = Z.max 1 (Qfloor (fl (inject_Z (Z.of_nat (List.length (edges g)))
                             * severity))) /\
    Permutation (ids ++ rest) (edge_ids g) /\
    forall (w2 : World) (G2 : loc),
      nth_error (heap w2) G2 = Some g ->
      fst (select_edges_for_scenario G2 "Random Failure" severity polys
                                     (Some seed) w2) = Ok ids.
Proof.
  intros E Hne Hmax H0 H1.
  set (k := Z.to_nat (n_selected (List.length (edge_ids g)) severity)).
  set (shuffled := fst (shuffle (seeded seed) (edge_ids g))).
  assert (Hlen : List.length (edge_ids g) = List.length (edges g))
    by apply length_map.
  assert (Hn : (1 <= List.length (edge_ids g))%nat).
  { rewrite Hlen. destruct (edges g); [congruence|simpl; lia]. }
  destruct (n_selected_floor (List.length (edge_ids g)) severity H0 H1 Hn)
    as [Hfl Hb]; [now rewrite Hlen|].
  assert (Hp : Permutation (edge_ids g) shuffled) by apply shuffle_perm.
  exists (firstn k shuffled), (skipn k shuffled).
  split; [|split; [|split]].
  - rewrite (select_run w G g (edges g)); auto using gdf_of_nonempty.
  - rewrite length_firstn, <- (Permutation_length Hp), <- Hlen, <- Hfl.
    unfold k. lia.
  - rewrite firstn_skipn. now apply Permutation_sym.
  - intros w2 G2 E2.
    rewrite (select_run w2 G2 g (edges g)); auto using gdf_of_nonempty.
Qed.

(** C10. On a network whose edge table has no [highway] column, the
    Highway Flood scenario without hazard geometries (none given, or an
    empty set) raises [KeyError] from the tag-based fallback instead of
    returning an empty selection; the Bridge Collapse and Tunnel Closure
    selectors return the empty list when their column is absent. *)
Theorem highway_fallback_raises_without_column
    (w : World) (G : loc) (g : Graph) (T : GeoDataFrame) (severity : Q)
    (polys : option (list Geometry)) (seed : option N) :
  nth_error (heap w) G = Some g ->
  graph_to_edges_gdf g = Ok T ->
  in_columns highway T = false ->
  polys = None \/ polys = Some [] ->
  select_highway_edges g = Raise KeyError /\
  fst (select_edges_for_scenario G "Highway Flood" severity polys seed w)
    = Raise KeyError /\
  (in_columns bridge T = false ->
   select_bridge_edges g = Ok [] /\
   fst (select_edges_for_scenario G "Bridge Collapse" severity polys seed w)
     = Ok []) /\
  (in_columns tunnel T = false ->
   select_tunnel_edges g = Ok [] /\
   fst (select_edges_for_scenario G "Tunnel Closure" severity polys seed w)
     = Ok []).
Proof.
  intros E HT Hh Hp.
  assert (Hhw : select_highway_edges g = Raise KeyError).
  { unfold select_highway_edges. rewrite HT. cbn [res_bind].
    now rewrite Hh. }
  split; [exact Hhw|]. split; [|split].
  - rewrite (select_run w G g T "Highway Flood" _ _ _ E HT eq_refl).
    destruct Hp as [-> | ->]; exact Hhw.
  - intros Hb.
    assert (Hbr : select_bridge_edges g = Ok []).
    { unfold select_bridge_edges. rewrite HT. cbn [res_bind].
      now rewrite Hb. }
    split; [exact Hbr|].
    rewrite (select_run w G g T "Bridge Collapse" _ _ _ E HT eq_refl).
    exact Hbr.
  - intros Ht.
    assert (Htu : select_tunnel_edges g = Ok []).
    { unfold select_tunnel_edges. rewrite HT. cbn [res_bind].
      now rewrite Ht. }
    split; [exact Htu|].
    rewrite (select_run w G g T "Tunnel Closure" _ _ _ E HT eq_refl).
    exact Htu.
Qed.

End SelectionFacts.

(** ** The targeted attack: ranking and expansion *)

Lemma Qlt_bool_false (a b : Q) : Qlt_bool a b = false -> (b <= a)%Q.
Proof.
  unfold Qlt_bool. intros H. apply negb_false_iff in H.
  now apply Qle_bool_iff.
Qed.

Lemma Qlt_bool_true (a b : Q) : Qlt_bool a b = true -> (a <= b)%Q.
Proof.
  unfold Qlt_bool. intros H. apply negb_true_iff in H.
  apply Qlt_le_weak, Qnot_le_lt. intros Hle.
  apply Qle_bool_iff in Hle. congruence.
Qed.

Lemma insert_desc_Permutation (x : node * node * Q) (l : list (node * node * Q)) :
  Permutation (x :: l) (insert_desc x l).
Proof.
  induction l as [|y l IH]; simpl; [apply Permutation_refl|].
  destruct (Qlt_bool (snd x) (snd y)); [|apply Permutation_refl].
  eapply Permutation_trans; [apply perm_swap|now apply perm_skip].
Qed.

Lemma sorted_desc_Permutation (l : list (node * node * Q)) :
  Permutation l (sorted_desc l).
Proof.
  induction l as [|x l IH]; simpl; [constructor|].
  eapply Permutation_trans; [apply perm_skip, IH|].
  apply insert_desc_Permutation.
Qed.

Lemma insert_desc_sorted (x : node * node * Q) (l : list (node * node * Q)) :
  StronglySorted ranks_before l -> StronglySorted ranks_before (insert_desc x l).
Proof.
  induction l as [|y l IH]; simpl; intros Hs.
  - constructor; constructor.
  - inversion Hs as [|? ? Hl Hy]; subst.
    destruct (Qlt_bool (snd x) (snd y)) eqn:C.
    + constructor; [now apply IH|].
      apply Qlt_bool_true in C.
      eapply Permutation_Forall; [apply insert_desc_Permutation|].
      constructor; assumption.
    + apply Qlt_bool_false in C.
      constructor; [assumption|].
      constructor; [exact C|].
      eapply Forall_impl; [|exact Hy].
      intros z Hz. unfold ranks_before in *.
      eapply Qle_trans; eassumption.
Qed.

Lemma sorted_desc_sorted (l : list (node * node * Q)) :
  StronglySorted ranks_before (sorted_desc l).
Proof.
  induction l as [|x l IH]; simpl; [constructor|].
  now apply insert_desc_sorted.
Qed.

(** In a ranked list every entry of a prefix ranks before every entry of
    the rest. *)
Lemma sorted_prefix_before_rest (l : list (node * node * Q)) (k : nat) :
  StronglySorted ranks_before l ->
  forall x y, In x (firstn k l) -> In y (skipn k l) -> ranks_before x y.
Proof.
  intros Hs. revert k.
  induction Hs as [|a l Hl IH Ha]; intros k x y Hx Hy.
  - rewrite firstn_nil in Hx. contradiction.
  - destruct k as [|k]; simpl in Hx, Hy; [contradiction|].
    destruct Hx as [<-|Hx].
    + rewrite Forall_forall in Ha. apply Ha.
      rewrite <- (firstn_skipn k l). apply in_or_app. now right.
    + now apply (IH k).
Qed.

Lemma dedup_In (l seen : list node) (x : node) :
  In x (dedup seen l) <-> In x l /\ ~ In x seen.
Proof.
  revert seen. induction l as [|y l IH]; intros seen; simpl; [tauto|].
  destruct (existsb (Z.eqb y) seen) eqn:Ex.
  - rewrite IH. apply existsb_exists in Ex.
    destruct Ex as [z [Hz Ez]]. apply Z.eqb_eq in Ez. subst z.
    split; [tauto|]. intros [[<-|H] Hn]; [contradiction|tauto].
  - simpl. rewrite IH. simpl.
    assert (Hy : ~ In y seen).
    { intros Hin. rewrite <- not_true_iff_false in Ex. apply Ex.
      apply existsb_exists. exists y. split; [assumption|apply Z.eqb_refl]. }
    split.
    + intros [<-|[H Hn]]; [tauto|tauto].
    + intros [[<-|H] Hn]; [tauto|].
      destruct (Z.eq_dec y x) as [->|Hne]; [tauto|]. right. tauto.
Qed.

(** [m] is a neighbour of [n] exactly when an edge joins them, in either
    direction. *)
Lemma neighbours_In (g : Graph) (n m : node) :
  In m (neighbours g n) <->
  exists k, In (n, m, k) (edge_ids g) \/ In (m, n, k) (edge_ids g).
Proof.
  unfold neighbours. rewrite dedup_In, in_flat_map. split.
  - intros [[r [Hr Hm]] _]. destruct r as [[[u v] k] d]. simpl in Hm.
    exists k. apply in_app_or in Hm.
    destruct Hm as [Hm|Hm].
    + destruct (Z.eqb_spec u n); [|contradiction].
      destruct Hm as [<-|[]]. subst u. left.
      apply in_map_iff. exists (n, v, k, d). split; [reflexivity|assumption].
    + destruct (Z.eqb_spec v n); [|contradiction].
      destruct Hm as [<-|[]]. subst v. right.
      apply in_map_iff. exists (u, n, k, d). split; [reflexivity|assumption].
  - intros [k [H|H]]; (split; [|tauto]);
      apply in_map_iff in H; destruct H as [[e d] [Ee Hr]];
      simpl in Ee; subst e; eexists; (split; [exact Hr|]); simpl;
      apply in_or_app.
    + left. rewrite Z.eqb_refl. now left.
    + right. rewrite Z.eqb_refl. now left.
Qed.

Lemma neighbours_sym (g : Graph) (n m : node) :
  In m (neighbours g n) -> In n (neighbours g m).
Proof.
  rewrite !neighbours_In. intros [k [H|H]]; exists k; tauto.
Qed.

Lemma not_seen_In (seen : list node) (m : node) :
  negb (existsb (Z.eqb m) seen) = true <-> ~ In m seen.
Proof.
  rewrite negb_true_iff, <- not_true_iff_false, existsb_exists. split.
  - intros H Hin. apply H. exists m. split; [assumption|apply Z.eqb_refl].
  - intros H [z [Hz Ez]]. apply Z.eqb_eq in Ez. subst z. contradiction.
Qed.

(** Some node still to visit has a neighbour not yet visited: the edge list
    of the undirected graph is not empty. *)
Lemma edges_from_nonempty (g : Graph) (ns : list node) :
  forall seen,
    NoDup ns ->
    (forall x, In x seen -> ~ In x ns) ->
    (exists a b, In a ns /\ In b (neighbours g a) /\ ~ In b seen) ->
    edges_from g seen ns <> [].
Proof.
  induction ns as [|n ns IH]; intros seen Hnd Hdis [a [b [Ha [Hb Hs]]]];
    [contradiction|].
  simpl.
  destruct (filter (fun m => negb (existsb (Z.eqb m) seen)) (neighbours g n))
    as [|m ms] eqn:F; [|discriminate].
  simpl.
  assert (Hall : forall m, In m (neighbours g n) -> In m seen).
  { intros m Hm.
    destruct (in_dec Z.eq_dec m seen) as [|Hn]; [assumption|].
    assert (Hin : In m (filter (fun m => negb (existsb (Z.eqb m) seen))
                               (neighbours g n)))
      by (apply filter_In; split; [assumption|now apply not_seen_In]).
    rewrite F in Hin. contradiction. }
  inversion Hnd as [|? ? Hn Hns]; subst.
  destruct Ha as [<-|Ha]; [elim Hs; now apply Hall|].
  apply IH; [assumption| |].
  - intros x [<-|Hx]; [assumption|].
    intros Hin. apply (Hdis x Hx). now right.
  - exists a, b. repeat split; [assumption..|].
    intros [<-|Hin]; [|contradiction].
    apply neighbours_sym, Hall in Hb.
    apply (Hdis a Hb). now right.
Qed.

Lemma undirected_edges_nonempty (g : Graph) :
  graph_ok g -> edges g <> [] -> uedges (nx_Graph g) <> [].
Proof.
  intros [Hnd Hin] Hne. simpl.
  destruct (edges g) as [|[[[u v] k] d] rest] eqn:Eg; [congruence|].
  assert (He : In (u, v, k) (edge_ids g))
    by (unfold edge_ids; rewrite Eg; now left).
  apply edges_from_nonempty; [assumption|contradiction|].
  exists u, v. split; [apply (Hin u v k He)|]. split; [|tauto].
  apply neighbours_In. exists k. now left.
Qed.

Section TargetedAttack.
Context `{FA : Float64} `{SH : Shapely} `{NP : NumpyRandom} `{NX : NetworkX}.

(** C3 (amended). On a network with at least one edge and a severity in
    (0,1], the Targeted Attack ranks the [P] unordered node pairs of the
    undirected simplification by descending betweenness and selects the
    top [max(1, floor(severity * P))] of them (the product being the
    floating-point one): at least one pair, at most
    [P], each ranking no lower than every pair left out.  The returned
    removal list is exactly the directed and parallel edges of the
    original network whose endpoint pair, in either order, is a selected
    pair. *)
Theorem targeted_attack_selection
    (w : World) (G : loc) (g : Graph) (severity : Q)
    (polys : option (list Geometry)) (seed : option N) :
  nth_error (heap w) G = Some g ->
  graph_ok g ->
  edges g <> [] ->
  Z.of_nat (List.length (uedges (nx_Graph g))) <= max_exact_int ->
  (0 < severity)%Q -> (severity <= 1)%Q ->
  let P := List.length (uedges (nx_Graph g)) in
  let ranked := sorted_desc (edge_betweenness_centrality (nx_Graph g)) in
  let k := Z.to_nat (Z.max 1 (Qfloor (fl (inject_Z (Z.of_nat P)
                                           * severity)))) in
  let top := targeted_top_pairs g severity in
  Permutation (map fst ranked) (uedges (nx_Graph g)) /\
  top = map (fun kv => sorted_pair (fst (fst kv)) (snd (fst kv)))
            (firstn k ranked) /\
  List.length top = k /\
  (1 <= k <= P)%nat /\
  (forall x y, In x (firstn k ranked) -> In y (skipn k ranked) ->
               (snd y <= snd x)%Q) /\
  exists ids,
    fst (select_edges_for_scenario G "Targeted Attack (Top k%)" severity
                                   polys seed w) = Ok ids /\
    forall u v key,
      In (u, v, key) ids <->
      In (u, v, key) (edge_ids g) /\ In (sorted_pair u v) top.
Proof.
  intros E Hok Hne Hmax H0 H1 P ranked k top.
  pose proof (sorted_desc_Permutation
                (edge_betweenness_centrality (nx_Graph g))) as Hperm.
  fold ranked in Hperm.
  assert (Hlen : List.length ranked = P).
  { rewrite <- (Permutation_length Hperm).
    unfold P. rewrite <- (edge_betweenness_keys (nx_Graph g)).
    now rewrite length_map. }
  assert (HP : (1 <= P)%nat).
  { pose proof (undirected_edges_nonempty g Hok Hne) as Hu.
    unfold P. destruct (uedges (nx_Graph g)); [congruence|simpl; lia]. }
  destruct (n_selected_floor P severity (Qlt_le_weak _ _ H0) H1 HP Hmax)
    as [Hfl Hb].
  assert (Htop : top = map (fun kv => sorted_pair (fst (fst kv))
                                                  (snd (fst kv)))
                           (firstn k ranked)).
  { unfold top, targeted_top_pairs. fold ranked.
    rewrite Hlen, Hfl. reflexivity. }
  split; [|split; [|split; [|split; [|split]]]].
  - rewrite <- (edge_betweenness_keys (nx_Graph g)).
    apply Permutation_map, Permutation_sym, Hperm.
  - exact Htop.
  - rewrite Htop, length_map, length_firstn, Hlen. unfold k. lia.
  - unfold k. lia.
  - intros x y Hx Hy.
    exact (sorted_prefix_before_rest ranked k (sorted_desc_sorted _)
                                     x y Hx Hy).
  - eexists. split.
    + rewrite (select_run w G g (edges g) "Targeted Attack (Top k%)");
        auto using gdf_of_nonempty.
      reflexivity.
    + intros u v key. fold top. rewrite filter_In.
      unfold pair_in. rewrite existsb_exists. split.
      * intros [Hin [p [Hp Ep]]]. split; [assumption|].
        unfold pair_eqb in Ep. apply andb_true_iff in Ep.
        destruct Ep as [E1 E2]. apply Z.eqb_eq in E1, E2.
        destruct p as [a b]. simpl in E1, E2.
        unfold sorted_pair. now rewrite E1, E2.
      * intros [Hin Hp]. split; [assumption|].
        exists (sorted_pair u v). split; [assumption|].
        unfold pair_eqb. now rewrite !Z.eqb_refl.
Qed.

End TargetedAttack.

(** ** The progressive sweep *)

Lemma collect_res_app {X A} (f : X -> res A) (xs ys : list X) :
  collect_res f (xs ++ ys) =
  (a <~ collect_res f xs ;; b <~ collect_res f ys ;; Ok (a ++ b))%res.
Proof.
  induction xs as [|x xs IH]; simpl.
  - destruct (collect_res f ys); reflexivity.
  - destruct (f x); simpl; [|reflexivity].
    rewrite IH. destruct (collect_res f xs); simpl; [|reflexivity].
    destruct (collect_res f ys); reflexivity.
Qed.

Lemma collect_res_map {X A B} (f : X -> res A) (h : A -> B) (xs : list X)
    (rows : list A) :
  collect_res f xs = Ok rows ->
  forall (k : X -> B), (forall x a, f x = Ok a -> h a = k x) ->
  map h rows = map k xs.
Proof.
  revert rows. induction xs as [|x xs IH]; simpl; intros rows E k Hk.
  - injection E as <-. reflexivity.
  - destruct (f x) as [a|] eqn:Fx; [simpl in E|discriminate].
    destruct (collect_res f xs) as [rest|]; [simpl in E|discriminate].
    injection E as <-. simpl. f_equal; [now apply Hk|now apply IH].
Qed.

Section Sweep.
Context `{FA : Float64} `{SH : Shapely} `{NP : NumpyRandom} `{NX : NetworkX}.

Lemma grown_refl (w : World) : grown w w.
Proof. exists []. destruct w. simpl. now rewrite app_nil_r. Qed.

Lemma grown_trans (w1 w2 w3 : World) : grown w1 w2 -> grown w2 w3 -> grown w1 w3.
Proof.
  intros [e1 ->] [e2 ->]. exists (e1 ++ e2). simpl. now rewrite app_assoc.
Qed.

Lemma grown_keeps (w w' : World) (l : loc) (g : Graph) :
  grown w w' -> nth_error (heap w) l = Some g -> nth_error (heap w') l = Some g.
Proof. intros [extra ->] E. simpl. now apply nth_error_app_old. Qed.

Lemma select_seeded_run (w : World) (G : loc) (g : Graph)
    (scenario : string) (severity : Q) (polys : option (list Geometry))
    (seed : N) :
  nth_error (heap w) G = Some g ->
  select_edges_for_scenario G scenario severity polys (Some seed) w =
  (selection_of g scenario severity polys seed, w).
Proof.
  intros E. unfold select_edges_for_scenario, selection_of.
  destruct (negb (str_in scenario SCENARIOS)); [reflexivity|].
  unfold bind at 1. rewrite (deref_run w G g E).
  unfold bind at 1, lift at 1.
  destruct (graph_to_edges_gdf g); reflexivity.
Qed.

Lemma simulate_seeded_run (w : World) (G : loc) (g : Graph)
    (ids : list EdgeId) (n_pairs : Z) (penalty_ratio : Q) (seed : N) :
  nth_error (heap w) G = Some g ->
  exists w',
    simulate_single_shock G ids n_pairs penalty_ratio (Some seed) w =
    (metrics_of g ids n_pairs penalty_ratio seed, w') /\ grown w w'.
Proof.
  intros E. rewrite (simulate_run w G g) by exact E.
  unfold metrics_of. cbv zeta.
  destruct (snd (apply_removals g ids 0) =? 0);
    (eexists; split; [reflexivity|eexists; reflexivity]).
Qed.

Lemma sweep_cell_run (w : World) (G : loc) (g : Graph)
    (city scenario : string) (n_pairs : Z)
    (polys : option (list Geometry)) (base_seed : N)
    (i : nat) (sev : Q) (run : nat) :
  nth_error (heap w) G = Some g ->
  exists w',
    sweep_cell G city scenario n_pairs polys base_seed i sev run w =
    (cell_at_seed g city scenario n_pairs polys sev run
                  (base_seed + N.of_nat i * 100 + N.of_nat run)%N, w') /\
    grown w w'.
Proof.
  intros E. unfold sweep_cell, cell_at_seed. cbv zeta.
  unfold bind at 1. rewrite (select_seeded_run w G g) by exact E.
  destruct (selection_of g scenario sev polys _) as [ids|e]; cbn [res_bind].
  - destruct (simulate_seeded_run w G g ids n_pairs default_penalty_ratio
                (base_seed + N.of_nat i * 100 + N.of_nat run)%N E)
      as [w' [Hrun Hg]].
    exists w'. split; [|exact Hg].
    unfold bind at 1. rewrite Hrun.
    destruct (metrics_of g ids n_pairs default_penalty_ratio _);
      reflexivity.
  - exists w. split; [reflexivity|apply grown_refl].
Qed.

Lemma for_runs_run (G : loc) (g : Graph) (city scenario : string)
    (n_pairs : Z) (polys : option (list Geometry)) (base_seed : N)
    (i : nat) (sev : Q) (runs : list nat) :
  forall (rows : list Row) (w : World),
    nth_error (heap w) G = Some g ->
    exists w',
      for_runs (sweep_cell G city scenario n_pairs polys base_seed i sev)
               runs rows w =
      ((new <~ collect_res
                 (fun c => let '(i, sev, r) := c in
                    cell_at_seed g city scenario n_pairs polys sev r
                      (base_seed + N.of_nat i * 100 + N.of_nat r)%N)
                 (map (fun r => (i, sev, r)) runs) ;;
        Ok (rows ++ new))%res, w') /\
      grown w w'.
Proof.
  induction runs as [|run rest IH]; intros rows w E; simpl.
  - exists w. rewrite app_nil_r. split; [reflexivity|apply grown_refl].
  - destruct (sweep_cell_run w G g city scenario n_pairs polys base_seed
                             i sev run E) as [w1 [Hc Hg1]].
    unfold bind at 1. rewrite Hc.
    destruct (cell_at_seed _ _ _ _ _ _ _ _) as [row|e]; cbn [res_bind].
    + destruct (IH (rows ++ [row]) w1 (grown_keeps _ _ _ _ Hg1 E))
        as [w2 [Hr Hg2]].
      exists w2. split; [|eapply grown_trans; eassumption].
      rewrite Hr.
      destruct (collect_res _ _) as [new|]; cbn [res_bind];
        [|reflexivity].
      now rewrite <- app_assoc.
    + exists w1. split; [reflexivity|assumption].
Qed.

Lemma for_severities_run (G : loc) (g : Graph) (city scenario : string)
    (n_pairs : Z) (polys : option (list Geometry)) (base_seed : N)
    (runs_per_severity : Z) (severities : list Q) :
  forall (i : nat) (rows : list Row) (w : World),
    nth_error (heap w) G = Some g ->
    exists w',
      for_severities
        (sweep_cell G city scenario n_pairs polys base_seed)
        runs_per_severity i severities rows w =
      ((new <~ collect_res
                 (fun c => let '(i, sev, r) := c in
                    cell_at_seed g city scenario n_pairs polys sev r
                      (base_seed + N.of_nat i * 100 + N.of_nat r)%N)
                 (sweep_grid i severities runs_per_severity) ;;
        Ok (rows ++ new))%res, w') /\
      grown w w'.
Proof.
  induction severities as [|sev rest IH]; intros i rows w E; simpl.
  - exists w. rewrite app_nil_r. split; [reflexivity|apply grown_refl].
  - destruct (for_runs_run G g city scenario n_pairs polys base_seed i sev
                           (range runs_per_severity) rows w E)
      as [w1 [Hr Hg1]].
    unfold bind at 1. rewrite Hr. rewrite collect_res_app.
    destruct (collect_res _ (map _ (range runs_per_severity))) as [new1|];
      cbn [res_bind].
    + destruct (IH (S i) (rows ++ new1) w1 (grown_keeps _ _ _ _ Hg1 E))
        as [w2 [Hs Hg2]].
      exists w2. split; [|eapply grown_trans; eassumption].
      rewrite Hs.
      destruct (collect_res _ (sweep_grid _ _ _)) as [new2|];
        cbn [res_bind]; [|reflexivity].
      now rewrite <- app_assoc.
    + exists w1. split; [reflexivity|assumption].
Qed.

(** C5. The table of a progressive sweep is a function of its inputs and
    of the graph the provider returns: the cell at severity index [i]
    (counting from 0) and repeat [r] is computed with the seed
    [base_seed + i*100 + r], given both to the edge selection and to the
    simulation; rows come in input severity order, then repeat order; and
    two executions on the same inputs, whatever else their worlds hold
    (other graph objects, OS entropy), return the same table. *)
Theorem progressive_sweep_is_reproducible
    (w : World) (city scenario : string) (severities : list Q)
    (n_pairs runs_per_severity : Z) (polys : option (list Geometry))
    (cache_dir : string) (base_seed : N) :
  let table w :=
    fst (run_progressive_damage_experiment city scenario severities n_pairs
           runs_per_severity polys cache_dir base_seed w) in
  table w =
    (g <~ provider w city cache_dir ;;
     collect_res
       (fun c => let '(i, sev, r) := c in
          cell_at_seed g city scenario n_pairs polys sev r
                       (base_seed + N.of_nat i * 100 + N.of_nat r)%N)
       (sweep_grid 0 severities runs_per_severity))%res /\
  (forall rows,
      table w = Ok rows ->
      map (fun row => (row_severity row, row_run row)) rows =
      flat_map (fun sev => map (fun r => (sev, r)) (range runs_per_severity))
               severities) /\
  (forall w2,
      provider w2 city cache_dir = provider w city cache_dir ->
      table w2 = table w).
Proof.
  cbv zeta.
  assert (Htab : forall w0,
    fst (run_progressive_damage_experiment city scenario severities n_pairs
           runs_per_severity polys cache_dir base_seed w0) =
    (g <~ provider w0 city cache_dir ;;
     collect_res
       (fun c => let '(i, sev, r) := c in
          cell_at_seed g city scenario n_pairs polys sev r
                       (base_seed + N.of_nat i * 100 + N.of_nat r)%N)
       (sweep_grid 0 severities runs_per_severity))%res).
  { intros w0. unfold run_progressive_damage_experiment, load_city_graph.
    unfold bind at 1.
    destruct (provider w0 city cache_dir) as [g|e]; [|reflexivity].
    cbn [res_bind]. unfold alloc.
    match goal with
    | |- fst (for_severities _ _ _ _ _ ?w1) = _ =>
        destruct (for_severities_run (List.length (heap w0)) g city scenario
                    n_pairs polys base_seed runs_per_severity severities
                    0%nat [] w1 (nth_error_app_last (heap w0) g))
          as [w' [Hs _]]
    end.
    rewrite Hs. cbn [fst].
    destruct (collect_res _ _); reflexivity. }
  split; [apply Htab|]. split.
  - intros rows Hrows. rewrite Htab in Hrows.
    destruct (provider w city cache_dir) as [g|]; [|discriminate].
    cbn [res_bind] in Hrows.
    rewrite (collect_res_map _ (fun row => (row_severity row, row_run row))
               _ _ Hrows (fun c => (snd (fst c), snd c))).
    + generalize 0%nat. clear.
      induction severities as [|sev rest IH]; intros i; simpl;
        [reflexivity|].
      rewrite map_app, map_map, IH. reflexivity.
    + intros [[i sev] r] row. unfold cell_at_seed.
      destruct (selection_of _ _ _ _ _); [cbn [res_bind]|discriminate].
      destruct (metrics_of _ _ _ _ _); [cbn [res_bind]|discriminate].
      intros [= <-]. reflexivity.
  - intros w2 Hp. rewrite !Htab, Hp. reflexivity.
Qed.

End Sweep.

(** ** The statements on concrete networks *)

Ltac distinct_nodes :=
  repeat (apply NoDup_cons; [simpl; lia|]); apply NoDup_nil.

Ltac endpoints_in_graph :=
  let u := fresh "u" in
  let v := fresh "v" in
  let k := fresh "k" in
  let Hin := fresh "Hin" in
  intros u v k Hin; simpl in Hin;
  repeat (destruct Hin as [Hin|Hin];
          [injection Hin as <- <- <-; simpl; lia|]);
  contradiction.

(** C6 on a network with a single node, where sampling would fail: the
    listed edge is absent, the result is neutral and the world only gains
    the copy. *)
Lemma neutral_when_nothing_removed_example :
  simulate_single_shock 0%nat [(5, 6, 0)] 40 5 None
                        (Examples.world Examples.lonely)
  = (Ok (mkMetrics 1 1 0 0 0),
     mkWorld [Examples.lonely; Examples.lonely] 0%N
             (provider (Examples.world Examples.lonely))).
Proof.
  apply (neutral_when_nothing_removed
           (Examples.world Examples.lonely) 0%nat Examples.lonely).
  - reflexivity.
  - intros e [<-|[]]. reflexivity.
Defined.

(** C8 on the two-way street with the edge from 1 to 2 removed: the pair
    (1,0) keeps its length 1 and scores a ratio equal to 1; the pair (1,2)
    is cut off and scores the penalty. *)
Lemma ratio_of_retained_pair_example :
  astar_path_length Examples.street 1 0 "travel_time" = Ok 1%Q /\
  (exists r,
      score_pair Examples.street (remove_edge Examples.street (1, 2, 0))
                 "travel_time" 5 ([], 0) (1, 0) = Ok ([] ++ [r], 0) /\
      (r == 1)%Q) /\
  score_pair Examples.street (remove_edge Examples.street (1, 2, 0))
             "travel_time" 5 ([], 0) (1, 2) = Ok ([] ++ [5%Q], 0 + 1).
Proof.
  assert (Hb10 : astar_path_length Examples.street 1 0 "travel_time"
                 = Ok 1%Q) by (vm_compute; reflexivity).
  assert (Hb12 : astar_path_length Examples.street 1 2 "travel_time"
                 = Ok 1%Q) by (vm_compute; reflexivity).
  split; [exact Hb10|]. split.
  - apply (proj1 (ratio_of_retained_pair
                    Examples.street (remove_edge Examples.street (1, 2, 0))
                    "travel_time" 5 [] 0 1 0 1%Q Hb10) 1%Q).
    + vm_compute. reflexivity.
    + reflexivity.
    + discriminate.
  - apply (proj2 (ratio_of_retained_pair
                    Examples.street (remove_edge Examples.street (1, 2, 0))
                    "travel_time" 5 [] 0 1 2 1%Q Hb12)).
    vm_compute. reflexivity.
Defined.

(** C8 as stated fails on a pair at distance zero: baseline and damaged
    lengths are equal (both 0), yet no ratio is recorded; the division
    raises and the whole call fails. *)
Lemma equal_zero_lengths_record_no_ratio :
  astar_path_length Examples.zero_length 0 1 "travel_time" = Ok 0%Q /\
  astar_path_length (remove_edge Examples.zero_length (0, 1, 1)) 0 1
                    "travel_time" = Ok 0%Q /\
  score_pair Examples.zero_length (remove_edge Examples.zero_length (0, 1, 1))
             "travel_time" 5 ([], 0) (0, 1) = Raise ZeroDivisionError /\
  fst (sample_od_pairs 0%nat 1 (Some 3%N)
                       (Examples.world Examples.zero_length)) = Ok [(0, 1)] /\
  fst (simulate_single_shock 0%nat [(0, 1, 1)] 1 5 (Some 3%N)
                             (Examples.world Examples.zero_length))
  = Raise ZeroDivisionError.
Proof. repeat split; vm_compute; reflexivity. Qed.

(** C2 on the street whose edge from 1 to 2 carries no usable weight, with
    the edge from 0 to 1 removed: four pairs are sampled, two of them have
    no baseline path. *)
Lemma n_pairs_counts_sampled_pairs_example :
  exists pairs ratios disconnected,
    sample_pairs_in Examples.street_null 4 (seeded 2%N) = Ok pairs /\
    score_pairs Examples.street_null
                (fst (apply_removals Examples.street_null [(0, 1, 0)] 0))
                (_weight_attr Examples.street_null) 5 pairs ([], 0)
      = Ok (ratios, disconnected) /\
    List.length ratios
      = List.length (retained Examples.street_null
                              (_weight_attr Examples.street_null) pairs) /\
    disconnected =
      Z.of_nat (List.length
                  (filter (cut_off
                             (fst (apply_removals Examples.street_null
                                                  [(0, 1, 0)] 0))
                             (_weight_attr Examples.street_null))
                          (retained Examples.street_null
                                    (_weight_attr Examples.street_null)
                                    pairs))) /\
    n_pairs (mkMetrics (6 # 2) (6 # 2) (100 # 4) 1 4)
      = Z.of_nat (List.length pairs) /\
    (ratios <> [] ->
     avg_ratio (mkMetrics (6 # 2) (6 # 2) (100 # 4) 1 4) = np_mean ratios /\
     median_ratio (mkMetrics (6 # 2) (6 # 2) (100 # 4) 1 4)
       = np_median ratios /\
     pct_disconnected (mkMetrics (6 # 2) (6 # 2) (100 # 4) 1 4) =
       fl (fl (100 * inject_Z disconnected)
           / inject_Z (Z.of_nat (List.length pairs)))%Q) /\
    (retained Examples.street_null (_weight_attr Examples.street_null) pairs
       = pairs ->
     n_pairs (mkMetrics (6 # 2) (6 # 2) (100 # 4) 1 4)
       = Z.of_nat (List.length
                     (retained Examples.street_null
                               (_weight_attr Examples.street_null) pairs))).
Proof.
  apply (n_pairs_counts_sampled_pairs
           (Examples.world Examples.street_null)
           (snd (simulate_single_shock 0%nat [(0, 1, 0)] 4 5 (Some 2%N)
                   (Examples.world Examples.street_null)))
           0%nat Examples.street_null [(0, 1, 0)] 4 5 (Some 2%N)).
  - reflexivity.
  - vm_compute. reflexivity.
  - discriminate.
Defined.

(** C2 as stated fails there: the pairs (0,2) and (1,2) have no baseline
    path, two pairs are retained and one of them is cut off, yet the result
    reports [n_pairs = 4] and 25 percent disconnected, not 2 and 50. *)
Lemma excluded_pairs_still_counted :
  fst (sample_od_pairs 0%nat 4 (Some 2%N)
                       (Examples.world Examples.street_null))
    = Ok [(0, 2); (1, 2); (0, 1); (1, 0)] /\
  retained Examples.street_null "travel_time"
           [(0, 2); (1, 2); (0, 1); (1, 0)] = [(0, 1); (1, 0)] /\
  fst (simulate_single_shock 0%nat [(0, 1, 0)] 4 5 (Some 2%N)
                             (Examples.world Examples.street_null))
    = Ok (mkMetrics (6 # 2) (6 # 2) (100 # 4) 1 4) /\
  4 <> Z.of_nat (List.length [(0, 1); (1, 0)]) /\
  ~ (100 # 4 == 100 * 1 / 2)%Q.
Proof.
  repeat split; try (vm_compute; reflexivity); discriminate.
Qed.

(** C4 on two nodes joined by edges without a usable weight: one edge is
    removed, the sampled pair has no baseline path, and the saturated
    result counts that pair. *)
Lemma saturated_result_example :
  exists pairs,
    sample_pairs_in Examples.all_null 1 (seeded 3%N) = Ok pairs /\
    (retained Examples.all_null (_weight_attr Examples.all_null) pairs = [] ->
     mkMetrics 5 5 100 1 1 =
       mkMetrics 5 5 100
                 (snd (apply_removals Examples.all_null [(0, 1, 0)] 0))
                 (Z.of_nat (List.length pairs)) /\
     1 <= n_pairs (mkMetrics 5 5 100 1 1)) /\
    (NoDup (edge_ids Examples.all_null) ->
     n_removed_edges (mkMetrics 5 5 100 1 1) =
       Z.of_nat (List.length (edges Examples.all_null))
       - Z.of_nat (List.length
                     (edges (fst (apply_removals Examples.all_null
                                                 [(0, 1, 0)] 0))))).
Proof.
  apply (saturated_result_counts_sampled_pairs
           (Examples.world Examples.all_null)
           (snd (simulate_single_shock 0%nat [(0, 1, 0)] 1 5 (Some 3%N)
                   (Examples.world Examples.all_null)))
           0%nat Examples.all_null [(0, 1, 0)] 1 5 (Some 3%N)).
  - reflexivity.
  - vm_compute. reflexivity.
  - discriminate.
Defined.

(** C4 as stated fails there: one edge is removed, no sampled pair has a
    baseline path, and the result has [n_pairs = 1], not 0. *)
Lemma saturated_result_reports_sampled_pairs :
  fst (sample_od_pairs 0%nat 1 (Some 3%N) (Examples.world Examples.all_null))
    = Ok [(0, 1)] /\
  retained Examples.all_null "travel_time" [(0, 1)] = [] /\
  fst (simulate_single_shock 0%nat [(0, 1, 0)] 1 5 (Some 3%N)
                             (Examples.world Examples.all_null))
    = Ok (mkMetrics 5 5 100 1 1) /\
  n_pairs (mkMetrics 5 5 100 1 1) <> 0.
Proof.
  repeat split; try (vm_compute; reflexivity); discriminate.
Qed.

(** C7 on the two-way street, four pairs wanted, seed 2. *)
Lemma sampler_contract_example :
  (forall pairs,
      fst (sample_od_pairs 0%nat 4 (Some 2%N)
                           (Examples.world Examples.street)) = Ok pairs ->
      (forall u v, In (u, v) pairs -> u <> v) /\
      1 <= Z.of_nat (List.length pairs) <= 4) /\
  (forall H pairs attempts,
      _largest_component Examples.street = Ok H ->
      sample_loop H (nodes H) 4 (Z.to_nat (4 * 20)) (seeded 2%N) [] 0
        = Ok (pairs, attempts) ->
      0 <= attempts <= Z.max 0 (20 * 4) /\
      (pairs = [] ->
       fst (sample_od_pairs 0%nat 4 (Some 2%N)
                            (Examples.world Examples.street))
         = Raise RuntimeError /\
       attempts = Z.max 0 (20 * 4))) /\
  (forall H,
      _largest_component Examples.street = Ok H ->
      (List.length (nodes H) < 2)%nat ->
      fst (sample_od_pairs 0%nat 4 (Some 2%N)
                           (Examples.world Examples.street))
        = Raise (if 1 <=? 4 then ValueError else RuntimeError)).
Proof.
  apply (sampler_contract (Examples.world Examples.street) 0%nat
                          Examples.street 4 (Some 2%N)).
  - reflexivity.
  - simpl. distinct_nodes.
Defined.

(** C7 as stated fails on a component of one node: with one pair wanted the
    sampler fails at its first draw with numpy's [ValueError], not with the
    sampling-exhaustion error. *)
Lemma small_component_raises_ValueError :
  _largest_component Examples.lonely = Ok (mkGraph [0] []) /\
  fst (sample_od_pairs 0%nat 1 (Some 0%N) (Examples.world Examples.lonely))
    = Raise ValueError /\
  ValueError <> RuntimeError.
Proof.
  repeat split; try (vm_compute; reflexivity); discriminate.
Qed.

(** C1 on the directed triangle, severity 1/2, seed 0. *)
Lemma random_failure_selection_example :
  exists ids rest,
    select_edges_for_scenario 0%nat "Random Failure" (1 # 2) None
                              (Some 0%N) (Examples.world Examples.triangle)
      = (Ok ids, Examples.world Examples.triangle) /\
    Z.of_nat (List.length ids)
      = Z.max 1 (Qfloor (fl (inject_Z (Z.of_nat
                                         (List.length
                                            (edges Examples.triangle)))
                             * (1 # 2)))) /\
    Permutation (ids ++ rest) (edge_ids Examples.triangle) /\
    forall (w2 : World) (G2 : loc),
      nth_error (heap w2) G2 = Some Examples.triangle ->
      fst (select_edges_for_scenario G2 "Random Failure" (1 # 2) None
                                     (Some 0%N) w2) = Ok ids.
Proof.
  apply (random_failure_selection (Examples.world Examples.triangle) 0%nat
                                  Examples.triangle (1 # 2) None 0%N).
  - reflexivity.
  - discriminate.
  - unfold max_exact_int. simpl. lia.
  - unfold Qle. simpl. lia.
  - unfold Qle. simpl. lia.
Defined.

(** C1 as stated fails there: with 3 edges and severity 1/2 one edge is
    returned, where [max(1, ceil(3/2))] is 2. *)
Lemma random_failure_rounds_down :
  fst (select_edges_for_scenario 0%nat "Random Failure" (1 # 2) None
                                 (Some 0%N)
                                 (Examples.world Examples.triangle))
    = Ok [(1, 2, 0)] /\
  Z.max 1 (Qceiling (inject_Z (Z.of_nat
                                 (List.length (edges Examples.triangle)))
                     * (1 # 2))) = 2 /\
  Z.of_nat (List.length [(1, 2, 0)]) <> 2.
Proof.
  repeat split; try (vm_compute; reflexivity); discriminate.
Qed.

(** C3 on the two-way street, severity 1/2. *)
Lemma targeted_attack_selection_example :
  Permutation
    (map fst (sorted_desc (edge_betweenness_centrality
                             (nx_Graph Examples.street))))
    (uedges (nx_Graph Examples.street)) /\
  targeted_top_pairs Examples.street (1 # 2)
    = map (fun kv => sorted_pair (fst (fst kv)) (snd (fst kv)))
          (firstn (Z.to_nat
                     (Z.max 1 (Qfloor
                                 (fl (inject_Z
                                        (Z.of_nat
                                           (List.length
                                              (uedges
                                                 (nx_Graph Examples.street))))
                                      * (1 # 2))))))
                  (sorted_desc (edge_betweenness_centrality
                                  (nx_Graph Examples.street)))) /\
  List.length (targeted_top_pairs Examples.street (1 # 2)) = 1%nat /\
  (1 <= 1 <= 2)%nat /\
  (forall x y,
      In x (firstn 1 (sorted_desc (edge_betweenness_centrality
                                     (nx_Graph Examples.street)))) ->
      In y (skipn 1 (sorted_desc (edge_betweenness_centrality
                                    (nx_Graph Examples.street)))) ->
      (snd y <= snd x)%Q) /\
  exists ids,
    fst (select_edges_for_scenario 0%nat "Targeted Attack (Top k%)" (1 # 2)
                                   None (Some 0%N)
                                   (Examples.world Examples.street)) = Ok ids /\
    forall u v key,
      In (u, v, key) ids <->
      In (u, v, key) (edge_ids Examples.street) /\
      In (sorted_pair u v) (targeted_top_pairs Examples.street (1 # 2)).
Proof.
  assert (Hok : graph_ok Examples.street)
    by (split; [simpl; distinct_nodes|endpoints_in_graph]).
  assert (Hne : edges Examples.street <> []) by discriminate.
  assert (Hmax : Z.of_nat (List.length (uedges (nx_Graph Examples.street)))
                 <= max_exact_int)
    by (unfold max_exact_int; simpl; lia).
  assert (H0 : (0 < 1 # 2)%Q) by reflexivity.
  assert (H1 : (1 # 2 <= 1)%Q) by (unfold Qle; simpl; lia).
  exact (targeted_attack_selection (Examples.world Examples.street) 0%nat
           Examples.street (1 # 2) None (Some 0%N) eq_refl Hok Hne Hmax H0 H1).
Defined.

(** C3 as stated fails there: the network has 4 directed edges, so the
    claim selects [max(1, ceil(4 / 2)) = 2] unordered pairs and removes all
    four edges; the code counts the 2 unordered pairs, selects
    [max(1, int(2 / 2)) = 1] of them and removes its two edges. *)
Lemma targeted_attack_counts_unordered_pairs :
  List.length (edges Examples.street) = 4%nat /\
  Z.max 1 (Qceiling (inject_Z 4 * (1 # 2))) = 2 /\
  uedges (nx_Graph Examples.street) = [(0, 1); (1, 2)] /\
  targeted_top_pairs Examples.street (1 # 2) = [(0, 1)] /\
  Z.of_nat (List.length (targeted_top_pairs Examples.street (1 # 2))) <> 2 /\
  fst (select_edges_for_scenario 0%nat "Targeted Attack (Top k%)" (1 # 2)
                                 None (Some 0%N)
                                 (Examples.world Examples.street))
    = Ok [(0, 1, 0); (1, 0, 0)].
Proof.
  repeat split; try (vm_compute; reflexivity); discriminate.
Qed.

(** C10 on the triangle, whose edges carry no tag at all. *)
Lemma highway_fallback_example :
  select_highway_edges Examples.triangle = Raise KeyError /\
  fst (select_edges_for_scenario 0%nat "Highway Flood" (1 # 2) (Some [])
                                 (Some 0%N)
                                 (Examples.world Examples.triangle))
    = Raise KeyError /\
  (in_columns bridge (edges Examples.triangle) = false ->
   select_bridge_edges Examples.triangle = Ok [] /\
   fst (select_edges_for_scenario 0%nat "Bridge Collapse" (1 # 2) (Some [])
                                  (Some 0%N)
                                  (Examples.world Examples.triangle))
     = Ok []) /\
  (in_columns tunnel (edges Examples.triangle) = false ->
   select_tunnel_edges Examples.triangle = Ok [] /\
   fst (select_edges_for_scenario 0%nat "Tunnel Closure" (1 # 2) (Some [])
                                  (Some 0%N)
                                  (Examples.world Examples.triangle))
     = Ok []).
Proof.
  apply (highway_fallback_raises_without_column
           (Examples.world Examples.triangle) 0%nat Examples.triangle
           (edges Examples.triangle) (1 # 2) (Some []) (Some 0%N)).
  - reflexivity.
  - reflexivity.
  - reflexivity.
  - right. reflexivity.
Defined.

(** C5 on a provider that serves the two-way street: two severities, two
    repeats each, base seed 42. *)
Lemma progressive_sweep_example :
  fst (run_progressive_damage_experiment
         "X" "Random Failure" [1 # 2; 1 # 1] 2 2 None "graphs" 42%N
         (mkWorld [] 0%N (fun _ _ => Ok Examples.street)))
  = (g <~ Ok Examples.street ;;
     collect_res
       (fun c => let '(i, sev, r) := c in
          cell_at_seed g "X" "Random Failure" 2 None sev r
                       (42 + N.of_nat i * 100 + N.of_nat r)%N)
       [(0%nat, 1 # 2, 0%nat); (0%nat, 1 # 2, 1%nat);
        (1%nat, 1 # 1, 0%nat); (1%nat, 1 # 1, 1%nat)])%res /\
  fst (run_progressive_damage_experiment
         "X" "Random Failure" [1 # 2; 1 # 1] 2 2 None "graphs" 42%N
         (mkWorld [Examples.lonely] 7%N (fun _ _ => Ok Examples.street)))
  = fst (run_progressive_damage_experiment
           "X" "Random Failure" [1 # 2; 1 # 1] 2 2 None "graphs" 42%N
           (mkWorld [] 0%N (fun _ _ => Ok Examples.street))).
Proof.
  pose proof (progressive_sweep_is_reproducible
                (mkWorld [] 0%N (fun _ _ => Ok Examples.street))
                "X" "Random Failure" [1 # 2; 1 # 1] 2 2 None "graphs" 42%N)
    as [Htable [_ Hsame]].
  split.
  - exact Htable.
  - apply Hsame. reflexivity.
Defined.

(** * Further properties of the package *)

(** ** The damaged copy *)

Lemma listed_In (ids : list EdgeId) (e : EdgeId) :
  listed ids e = true <-> In e ids.
Proof.
  unfold listed. rewrite existsb_exists. split.
  - intros [x [Hx E]]. apply EdgeId_eqb_eq in E. now subst.
  - intros H. exists e. split; [assumption|now apply EdgeId_eqb_eq].
Qed.

Lemma remove_absent_edge (g : Graph) (e : EdgeId) :
  has_edge g e = false -> remove_edge g e = g.
Proof.
  intros H. unfold remove_edge. rewrite filter_other_ids.
  - now destruct g.
  - intros Hin. apply has_edge_In in Hin. congruence.
Qed.

Lemma filter_twice {A} (f h : A -> bool) (l : list A) :
  filter f (filter h l) = filter (fun x => h x && f x) l.
Proof.
  induction l as [|a l IH]; simpl; [reflexivity|].
  destruct (h a); simpl; [|exact IH].
  destruct (f a); simpl; congruence.
Qed.

Lemma filter_none {A} (p : A -> bool) (l : list A) :
  (forall x, In x l -> p x = false) -> filter p l = [].
Proof.
  induction l as [|a l IH]; intros H; [reflexivity|].
  simpl. rewrite (H a) by now left.
  apply IH. intros x Hx. apply H. now right.
Qed.

Lemma filter_all {A} (l : list A) : filter (fun _ => true) l = l.
Proof. induction l as [|a l IH]; simpl; congruence. Qed.

Lemma filter_split_length {A} (f : A -> bool) (l : list A) :
  (List.length (filter f l) + List.length (filter (fun x => negb (f x)) l)
   = List.length l)%nat.
Proof.
  induction l as [|a l IH]; simpl; [reflexivity|].
  destruct (f a); simpl; lia.
Qed.

(** The graph the removal loop leaves: the nodes of the input, and the
    edges whose identifier is not listed. *)
Lemma apply_removals_graph (ids : list EdgeId) :
  forall (g : Graph) (n : Z),
    fst (apply_removals g ids n) = without_listed g ids.
Proof.
  unfold without_listed.
  induction ids as [|e rest IH]; intros g n.
  - simpl. rewrite filter_all. now destruct g.
  - assert (Hstep : fst (apply_removals g (e :: rest) n) =
                    fst (apply_removals (remove_edge g e) rest
                           (if has_edge g e then n + 1 else n))).
    { simpl. destruct (has_edge g e) eqn:He; [reflexivity|].
      now rewrite remove_absent_edge. }
    rewrite Hstep, IH. simpl. f_equal.
    rewrite filter_twice. apply filter_ext. intros r.
    now rewrite negb_orb.
Qed.

Lemma apply_removals_bounds (ids : list EdgeId) :
  forall (g : Graph) (n : Z),
    n <= snd (apply_removals g ids n) <= n + Z.of_nat (List.length ids).
Proof.
  induction ids as [|e rest IH]; intros g n; simpl; [lia|].
  destruct (has_edge g e).
  - specialize (IH (remove_edge g e) (n + 1)). lia.
  - specialize (IH g n). lia.
Qed.

(** With distinct edge identifiers the loop counts the edges of the
    network that are listed. *)
Lemma apply_removals_listed (g : Graph) (ids : list EdgeId) :
  NoDup (edge_ids g) ->
  snd (apply_removals g ids 0) =
  Z.of_nat (List.length (filter (fun r => listed ids (fst r)) (edges g))).
Proof.
  intros Hnd.
  pose proof (apply_removals_count ids g 0 Hnd) as Hc.
  rewrite apply_removals_graph in Hc. simpl in Hc.
  pose proof (filter_split_length (fun r => listed ids (fst r)) (edges g)).
  lia.
Qed.

Lemma apply_removals_positive (ids : list EdgeId) :
  forall (g : Graph) (n : Z),
    (exists e, In e ids /\ has_edge g e = true) ->
    n < snd (apply_removals g ids n).
Proof.
  induction ids as [|e rest IH]; intros g n [x [Hin Hx]]; [contradiction|].
  simpl. destruct (has_edge g e) eqn:He.
  - pose proof (apply_removals_bounds rest (remove_edge g e) (n + 1)). lia.
  - apply IH. exists x. split; [|exact Hx].
    destruct Hin as [->|Hin]; [congruence|exact Hin].
Qed.

Section DamagedCopy.
Context `{FA : Float64} `{NP : NumpyRandom} `{NX : NetworkX}.


(** X2. With distinct edge identifiers in the network, the removal list
    acts as a set: two lists with the same members (in any order, with
    any repetitions) give the same damaged copy, the same result and the
    same final world. *)
Theorem removal_list_is_a_set
    (w : World) (G : loc) (g : Graph) (ids1 ids2 : list EdgeId)
    (n_pairs : Z) (penalty_ratio : Q) (seed : option N) :
  nth_error (heap w) G = Some g ->
  NoDup (edge_ids g) ->
  (forall e, In e ids1 <-> In e ids2) ->
  simulate_single_shock G ids1 n_pairs penalty_ratio seed w =
  simulate_single_shock G ids2 n_pairs penalty_ratio seed w.
Proof.
  intros E Hnd Hsame.
  assert (Hl : forall r : EdgeId * EdgeData,
             listed ids1 (fst r) = listed ids2 (fst r)).
  { intros r. apply eq_true_iff_eq. rewrite !listed_In. apply Hsame. }
  rewrite !(simulate_run w G g _ n_pairs penalty_ratio seed E). cbv zeta.
  rewrite !apply_removals_graph, !(apply_removals_listed g _ Hnd).
  unfold without_listed.
  rewrite (filter_ext _ _ Hl).
  rewrite (filter_ext (fun r => negb (listed ids1 (fst r)))
                      (fun r => negb (listed ids2 (fst r))))
    by (intros r; now rewrite Hl).
  reflexivity.
Qed.

(** X3. With distinct edge identifiers in the network, the returned
    [n_removed_edges] is the number of edges of the network whose
    identifier is listed: an identifier that is not in the network, or
    that is listed again, is not counted. *)
Theorem n_removed_counts_listed_edges
    (w w' : World) (G : loc) (g : Graph) (ids : list EdgeId)
    (n_pairs : Z) (penalty_ratio : Q) (seed : option N)
    (m : SimulationMetrics) :
  nth_error (heap w) G = Some g ->
  NoDup (edge_ids g) ->
  simulate_single_shock G ids n_pairs penalty_ratio seed w = (Ok m, w') ->
  n_removed_edges m =
    Z.of_nat (List.length
                (filter (fun r => existsb (fun x => EdgeId_eqb x (fst r)) ids)
                        (edges g))) /\
  n_removed_edges m <= Z.of_nat (List.length (edges g)).
Proof.
  intros E Hnd Hrun.
  pose proof (apply_removals_listed g ids Hnd) as Hk. unfold listed in Hk.
  pose proof (filter_length_le
                (fun r : EdgeId * EdgeData =>
                   existsb (fun x => EdgeId_eqb x (fst r)) ids) (edges g)) as Hle.
  rewrite (simulate_run w G g) in Hrun by exact E. cbv zeta in Hrun.
  destruct (snd (apply_removals g ids 0) =? 0) eqn:K.
  - apply Z.eqb_eq in K. injection Hrun as <- _. simpl. lia.
  - destruct (sample_pairs_in g n_pairs _) as [pairs|]; [|discriminate].
    cbn [res_bind fst] in Hrun. injection Hrun as Hm _.
    unfold shock_metrics in Hm.
    destruct (score_pairs _ _ _ _ _ _) as [[ratios d]|]; [|discriminate].
    cbn [res_bind] in Hm.
    destruct ratios; injection Hm as <-; simpl; lia.
Qed.

End DamagedCopy.

(** ** Bounds on the metrics *)

Lemma filter_filter_le {A} (f h : A -> bool) (l : list A) :
  (List.length (filter f (filter h l)) <= List.length l)%nat.
Proof.
  eapply Nat.le_trans; apply filter_length_le.
Qed.

Section MetricsBounds.
Context `{FA : Float64} `{NP : NumpyRandom} `{NX : NetworkX}.

Lemma choice2_members (rng rng' : Generator) (l : list node) (u v : node) :
  choice2 rng l = Ok (u, v, rng') -> In u l /\ In v l.
Proof.
  intros E.
  destruct (Nat.lt_ge_cases (List.length l) 2) as [Hs|Hl].
  - rewrite (choice2_short rng l Hs) in E. discriminate.
  - destruct (choice2_positions rng l Hl)
      as [i [j [u0 [v0 [g0 [_ [Hi [Hj E0]]]]]]]].
    rewrite E0 in E. injection E as <- <- _.
    split; eapply nth_error_In; eassumption.
Qed.

(** The loop, for any list of nodes: it never exceeds the desired count,
    and every pair it adds was drawn from the list and passed the test. *)
Lemma sample_loop_members (H : Graph) (ns : list node) (n : Z) :
  forall (remaining : nat) (rng : Generator)
         (pairs pairs' : list (node * node)) (attempts attempts' : Z),
    sample_loop H ns n remaining rng pairs attempts = Ok (pairs', attempts') ->
    Z.of_nat (List.length pairs')
      <= Z.max (Z.of_nat (List.length pairs)) n /\
    exists new,
      pairs' = pairs ++ new /\
      forall u v, In (u, v) new ->
                  In u ns /\ In v ns /\ has_path H u v = true.
Proof.
  induction remaining as [|remaining IH];
    intros rng pairs pairs' attempts attempts' E; cbn [sample_loop] in E.
  - injection E as <- <-. split; [lia|].
    exists []. rewrite app_nil_r. split; [reflexivity|contradiction].
  - destruct (Z.ltb_spec (Z.of_nat (List.length pairs)) n) as [Hlt|Hge].
    + destruct (choice2 rng ns) as [[[u v] rng']|e] eqn:C; [|discriminate].
      cbn [res_bind] in E.
      destruct (choice2_members _ _ _ _ _ C) as [Hu Hv].
      destruct (has_path H u v) eqn:P.
      * apply IH in E. destruct E as [Hl [new [-> Hnew]]].
        rewrite !length_app in *. simpl List.length in *.
        split; [lia|].
        exists ((u, v) :: new). rewrite <- app_assoc. split; [reflexivity|].
        intros a b [[= <- <-]|Hin]; [auto|now apply Hnew].
      * apply IH in E. destruct E as [Hl [new [-> Hnew]]].
        split; [lia|]. exists new. split; [reflexivity|assumption].
    + injection E as <- <-. split; [lia|].
      exists []. rewrite app_nil_r. split; [reflexivity|contradiction].
Qed.

(** What [sample_pairs_in] returns when it returns. *)
Lemma sample_pairs_in_spec (g : Graph) (n : Z) (rng : Generator)
    (pairs : list (node * node)) :
  sample_pairs_in g n rng = Ok pairs ->
  exists H,
    _largest_component g = Ok H /\
    1 <= Z.of_nat (List.length pairs) <= Z.max 0 n /\
    forall u v, In (u, v) pairs ->
                In u (nodes H) /\ In v (nodes H) /\ has_path H u v = true.
Proof.
  unfold sample_pairs_in. intros E.
  destruct (_largest_component g) as [H|] eqn:L; [|discriminate].
  cbn [res_bind] in E.
  destruct (sample_loop H (nodes H) n (Z.to_nat (n * 20)) rng [] 0)
    as [[ps a]|] eqn:S; [|discriminate].
  cbn [res_bind] in E.
  destruct ps as [|p ps]; [discriminate|]. injection E as <-.
  apply sample_loop_members in S. destruct S as [Hl [new [Hp Hnew]]].
  simpl in Hp. subst new. exists H. split; [reflexivity|].
  split; [simpl in Hl |- *; lia|exact Hnew].
Qed.

Lemma pct_within_bounds (d len : Z) :
  0 <= d <= len -> 1 <= len -> 100 * len <= max_exact_int ->
  (0 <= fl (fl (100 * inject_Z d) / inject_Z len) <= 100)%Q.
Proof.
  intros Hd Hlen Hmax.
  assert (Hpos : (0 < inject_Z len)%Q)
    by (change 0%Q with (inject_Z 0); rewrite <- Zlt_Qlt; lia).
  assert (H1 : (fl (100 * inject_Z d) == inject_Z (100 * d))%Q).
  { rewrite <- (fl_integer (100 * d)) by lia.
    apply fl_compat. now rewrite inject_Z_mult. }
  assert (H2 : (fl (fl (100 * inject_Z d) / inject_Z len)
                == fl (inject_Z (100 * d) / inject_Z len))%Q).
  { apply fl_compat. now rewrite H1. }
  assert (H0 : (fl 0 == 0)%Q)
    by (apply (fl_integer 0); unfold max_exact_int; simpl; lia).
  assert (H100 : (fl 100 == 100)%Q)
    by (apply (fl_integer 100); unfold max_exact_int; simpl; lia).
  split.
  - eapply Qle_trans; [|apply Qle_lteq; right; symmetry; exact H2].
    eapply Qle_trans; [apply Qle_lteq; right; symmetry; exact H0|].
    apply fl_monotone. apply Qle_shift_div_l; [exact Hpos|].
    rewrite Qmult_0_l. change 0%Q with (inject_Z 0). rewrite <- Zle_Qle. lia.
  - eapply Qle_trans; [apply Qle_lteq; right; exact H2|].
    eapply Qle_trans; [|apply Qle_lteq; right; exact H100].
    apply fl_monotone. apply Qle_shift_div_r; [exact Hpos|].
    change 100%Q with (inject_Z 100). rewrite <- inject_Z_mult.
    rewrite <- Zle_Qle. lia.
Qed.

(** X4. Whenever the simulator returns, its counts are within bounds:
    [n_removed_edges] is between 0 and the length of the removal list,
    [n_pairs] is between 0 and the requested number of pairs, [n_pairs] is
    0 exactly when nothing was removed, and (for a requested number whose
    hundredfold is exactly representable) [pct_disconnected] lies between
    0 and 100. *)
Theorem metrics_within_bounds
    (w w' : World) (G : loc) (g : Graph) (ids : list EdgeId)
    (n : Z) (penalty : Q) (seed : option N) (m : SimulationMetrics) :
  nth_error (heap w) G = Some g ->
  100 * n <= max_exact_int ->
  simulate_single_shock G ids n penalty seed w = (Ok m, w') ->
  0 <= n_removed_edges m <= Z.of_nat (List.length ids) /\
  0 <= n_pairs m <= Z.max 0 n /\
  (n_pairs m = 0 <-> n_removed_edges m = 0) /\
  (0 <= pct_disconnected m <= 100)%Q.
Proof.
  intros E Hmax Hrun.
  pose proof (apply_removals_bounds ids g 0) as Hb.
  rewrite (simulate_run w G g) in Hrun by exact E. cbv zeta in Hrun.
  destruct (snd (apply_removals g ids 0) =? 0) eqn:K.
  - injection Hrun as <- _. simpl.
    repeat split; try lia; discriminate.
  - apply Z.eqb_neq in K.
    destruct (sample_pairs_in g n _) as [pairs|] eqn:S; [|discriminate].
    cbn [res_bind fst] in Hrun. injection Hrun as Hm _.
    destruct (sample_pairs_in_spec _ _ _ _ S) as [H [_ [Hlen _]]].
    unfold shock_metrics in Hm.
    destruct (score_pairs _ _ _ _ _ _) as [[ratios d]|] eqn:Sc; [|discriminate].
    cbn [res_bind] in Hm.
    destruct (score_pairs_counts _ _ _ _ _ _ _ _ _ Sc) as [_ Hd].
    assert (Hdb : 0 <= d <= Z.of_nat (List.length pairs)).
    { rewrite Hd. unfold retained.
      pose proof (filter_filter_le
                    (cut_off (fst (apply_removals g ids 0)) (_weight_attr g))
                    (has_baseline g (_weight_attr g)) pairs).
      lia. }
    destruct ratios; injection Hm as <-; simpl;
      (split; [lia|split; [lia|split; [lia|]]]).
    + split; discriminate.
    + apply pct_within_bounds; lia.
Qed.

(** X5. Every pair the sampler returns joins two nodes of the largest
    weakly connected component of the network it was given (hence two
    nodes of that network), and the second is reachable from the first
    inside that component. *)
Theorem sampled_pairs_are_connected
    (w : World) (G : loc) (g : Graph) (n : Z) (seed : option N)
    (pairs : list (node * node)) :
  nth_error (heap w) G = Some g ->
  fst (sample_od_pairs G n seed w) = Ok pairs ->
  exists H,
    _largest_component g = Ok H /\
    forall u v, In (u, v) pairs ->
      In u (nodes H) /\ In v (nodes H) /\
      In u (nodes g) /\ In v (nodes g) /\
      has_path H u v = true.
Proof.
  intros E Hr.
  rewrite (sample_od_pairs_run w G g n seed E) in Hr. cbn [fst] in Hr.
  destruct (sample_pairs_in_spec _ _ _ _ Hr) as [H [L [_ Hin]]].
  exists H. split; [exact L|].
  intros u v Huv. destruct (Hin u v Huv) as [Hu [Hv Hp]].
  unfold _largest_component in L.
  destruct (max_by_len _) as [comp|]; [|discriminate].
  injection L as <-. simpl in Hu, Hv |- *.
  apply filter_In in Hu, Hv.
  repeat split; try tauto; apply filter_In; tauto.
Qed.

(** X6. A requested pair count of zero or less makes every shock that
    removes an edge fail: no pair is drawn and the sampler raises its
    exhaustion error ([RuntimeError]), or the [ValueError] of [max] when
    networkx reports no component; when no listed edge is in the network
    the same call returns the neutral result. *)
Theorem nonpositive_pair_count_fails
    (w : World) (G : loc) (g : Graph) (ids : list EdgeId)
    (n : Z) (penalty : Q) (seed : option N) :
  nth_error (heap w) G = Some g ->
  n <= 0 ->
  fst (simulate_single_shock G ids n penalty seed w) =
    if existsb (has_edge g) ids then
      match weakly_connected_components g with
      | [] => Raise ValueError
      | _ => Raise RuntimeError
      end
    else Ok (mkMetrics 1 1 0 0 0).
Proof.
  intros E Hn.
  rewrite (simulate_run w G g) by exact E. cbv zeta.
  destruct (existsb (has_edge g) ids) eqn:X.
  - apply existsb_exists in X.
    pose proof (apply_removals_positive ids g 0 X) as Hk.
    destruct (Z.eqb_spec (snd (apply_removals g ids 0)) 0) as [K|_]; [lia|].
    cbn [fst]. unfold sample_pairs_in, _largest_component.
    destruct (weakly_connected_components g) as [|c cs]; [reflexivity|].
    cbn [max_by_len res_bind].
    replace (Z.to_nat (n * 20)) with O by lia. reflexivity.
  - rewrite apply_removals_absent; [reflexivity|].
    intros e Hin. destruct (has_edge g e) eqn:He; [|reflexivity].
    assert (existsb (has_edge g) ids = true)
      by (apply existsb_exists; eauto).
    congruence.
Qed.

End MetricsBounds.

(** ** The largest component *)

Lemma longest_fold (cs : list (list node)) :
  forall c0 : list node,
    let best := fold_left
                  (fun best c' =>
                     if (List.length best <? List.length c')%nat
                     then c' else best) cs c0 in
    (best = c0 /\
     forall c, In c cs -> (List.length c <= List.length c0)%nat) \/
    (exists pre post,
        cs = pre ++ best :: post /\
        (List.length c0 < List.length best)%nat /\
        (forall c, In c pre -> (List.length c < List.length best)%nat) /\
        (forall c, In c post -> (List.length c <= List.length best)%nat)).
Proof.
  induction cs as [|c cs IH]; intros c0; cbn zeta.
  - left. split; [reflexivity|contradiction].
  - cbn [fold_left].
    destruct (Nat.ltb_spec (List.length c0) (List.length c)) as [Hlt|Hge].
    + right. destruct (IH c) as [[-> Hall]|[pre [post [Hcs [Hl [Hpre Hpost]]]]]].
      * exists [], cs. repeat split; auto. contradiction.
      * exists (c :: pre), post. rewrite Hcs at 1.
        repeat split; auto; [lia|].
        intros x [<-|Hx]; auto.
    + destruct (IH c0) as [[-> Hall]|[pre [post [Hcs [Hl [Hpre Hpost]]]]]].
      * left. split; [reflexivity|]. intros x [<-|Hx]; auto.
      * right. exists (c :: pre), post. rewrite Hcs at 1.
        repeat split; auto.
        intros x [<-|Hx]; [lia|auto].
Qed.

Lemma max_by_len_first_longest (cs : list (list node)) (comp : list node) :
  max_by_len cs = Ok comp ->
  exists pre post,
    cs = pre ++ comp :: post /\
    (forall c, In c pre -> (List.length c < List.length comp)%nat) /\
    (forall c, In c post -> (List.length c <= List.length comp)%nat).
Proof.
  destruct cs as [|c0 cs]; [discriminate|]. cbn [max_by_len].
  intros [= <-].
  destruct (longest_fold cs c0) as [[E Hall]|[pre [post [Hcs [Hl [Hpre Hpost]]]]]].
  - exists [], cs. rewrite E. repeat split; auto. contradiction.
  - exists (c0 :: pre), post. rewrite Hcs at 1.
    repeat split; auto. intros x [<-|Hx]; auto.
Qed.

Lemma node_in_In (n : node) (l : list node) : node_in n l = true <-> In n l.
Proof.
  unfold node_in. rewrite existsb_exists. split.
  - intros [x [Hx E]]. apply Z.eqb_eq in E. now subst.
  - intros H. exists n. split; [assumption|apply Z.eqb_refl].
Qed.

Section LargestComponent.
Context `{FA : Float64} `{NP : NumpyRandom} `{NX : NetworkX}.

(** X7. [_largest_component] fails with [ValueError] exactly when networkx
    reports no component.  Otherwise it returns the subgraph on the first
    of the longest components: every component listed before it is
    strictly shorter, none after it is longer; the subgraph has the
    network's nodes that are in the component and the network's edges
    whose two endpoints are. *)
Theorem largest_component_is_first_longest (g : Graph) :
  (weakly_connected_components g = [] <->
   _largest_component g = Raise ValueError) /\
  (forall H, _largest_component g = Ok H ->
     exists pre comp post,
       weakly_connected_components g = pre ++ comp :: post /\
       (forall c, In c pre -> (List.length c < List.length comp)%nat) /\
       (forall c, In c post -> (List.length c <= List.length comp)%nat) /\
       (forall n, In n (nodes H) <-> In n (nodes g) /\ In n comp) /\
       (forall u v k d, In (u, v, k, d) (edges H) <->
                        In (u, v, k, d) (edges g) /\ In u comp /\ In v comp)).
Proof.
  unfold _largest_component. split.
  - destruct (weakly_connected_components g) as [|c cs]; simpl.
    + split; reflexivity.
    + split; discriminate.
  - intros H E.
    destruct (max_by_len (weakly_connected_components g)) as [comp|] eqn:Mx;
      [|discriminate].
    injection E as <-.
    destruct (max_by_len_first_longest _ _ Mx) as [pre [post [Hcs [Hpre Hpost]]]].
    exists pre, comp, post. repeat split; auto.
    + simpl in H. apply filter_In in H. tauto.
    + simpl in H. apply filter_In in H. apply node_in_In. tauto.
    + intros [Hn Hc]. simpl. apply filter_In. split; [|apply node_in_In]; auto.
    + simpl in H. apply filter_In in H. tauto.
    + simpl in H. apply filter_In in H. destruct H as [_ H]. simpl in H.
      apply andb_true_iff in H. apply node_in_In. tauto.
    + simpl in H. apply filter_In in H. destruct H as [_ H]. simpl in H.
      apply andb_true_iff in H. apply node_in_In. tauto.
    + intros [Hin [Hu Hv]]. simpl. apply filter_In. split; [exact Hin|].
      simpl. apply andb_true_iff. split; apply node_in_In; assumption.
Qed.

End LargestComponent.

(** ** Edge selection: what every scenario returns *)

Lemma py_int_nonpos (x : Q) : (x <= 0)%Q -> py_int x <= 0.
Proof.
  destruct x as [a b]. unfold Qle, py_int. simpl. intros Ha.
  apply Z.quot_le_upper_bound; lia.
Qed.

Lemma py_int_opp (x : Q) : py_int (- x) = - py_int x.
Proof.
  destruct x as [a b]. unfold py_int. simpl.
  apply Z.quot_opp_l. discriminate.
Qed.

(** [int] is monotone. *)
Lemma py_int_monotone (x y : Q) : (x <= y)%Q -> py_int x <= py_int y.
Proof.
  intros Hxy.
  destruct (Qlt_le_dec x 0) as [Hx|Hx]; destruct (Qlt_le_dec y 0) as [Hy|Hy].
  - assert (Hx' : (0 <= - x)%Q)
      by (apply (Qopp_le_compat x 0), Qlt_le_weak, Hx).
    assert (Hy' : (0 <= - y)%Q)
      by (apply (Qopp_le_compat y 0), Qlt_le_weak, Hy).
    pose proof (py_int_opp x) as Ex. pose proof (py_int_opp y) as Ey.
    rewrite (py_int_floor _ Hx') in Ex. rewrite (py_int_floor _ Hy') in Ey.
    pose proof (Qfloor_resp_le _ _ (Qopp_le_compat _ _ Hxy)). lia.
  - pose proof (py_int_nonpos x (Qlt_le_weak _ _ Hx)).
    rewrite (py_int_floor y Hy).
    pose proof (Qfloor_resp_le 0 y Hy : 0 <= Qfloor y). lia.
  - exfalso. apply (Qlt_irrefl 0).
    eapply Qle_lt_trans; [exact Hx|]. eapply Qle_lt_trans; eassumption.
  - rewrite (py_int_floor x Hx), (py_int_floor y Hy).
    now apply Qfloor_resp_le.
Qed.

Lemma n_selected_monotone `{Float64} (n : nat) (s1 s2 : Q) :
  (s1 <= s2)%Q -> n_selected n s1 <= n_selected n s2.
Proof.
  intros Hs. unfold n_selected.
  apply Z.max_le_compat_l, py_int_monotone, fl_monotone.
  rewrite !(Qmult_comm (inject_Z (Z.of_nat n))).
  apply Qmult_le_compat_r; [assumption|].
  change 0%Q with (inject_Z 0). rewrite <- Zle_Qle. lia.
Qed.

Lemma firstn_prefix {A} (l : list A) (a b : nat) :
  (a <= b)%nat -> exists more, firstn b l = firstn a l ++ more.
Proof.
  revert a b. induction l as [|x l IH]; intros a b Hab.
  - exists []. now rewrite !firstn_nil.
  - destruct a as [|a].
    + exists (firstn b (x :: l)). reflexivity.
    + destruct b as [|b]; [lia|].
      destruct (IH a b) as [more Hm]; [lia|].
      exists more. simpl. now rewrite Hm.
Qed.

Lemma map_filter_Permutation {A B} (f : A -> B) (p : A -> bool) (l : list A) :
  Permutation (map f (filter p l) ++ map f (filter (fun x => negb (p x)) l))
              (map f l).
Proof.
  induction l as [|a l IH]; simpl; [constructor|].
  destruct (p a); simpl.
  - now constructor.
  - eapply Permutation_trans; [apply Permutation_sym, Permutation_middle|].
    now constructor.
Qed.

Lemma filter_Permutation {A} (p : A -> bool) (l : list A) :
  Permutation (filter p l ++ filter (fun x => negb (p x)) l) l.
Proof.
  pose proof (map_filter_Permutation (fun x => x) p l) as H.
  now rewrite !map_id in H.
Qed.

Section SelectionShape.
Context `{FA : Float64} `{SH : Shapely} `{NP : NumpyRandom} `{NX : NetworkX}.

(** A tag selector returns the rows whose tag is not null, whether the
    column exists or not. *)
Lemma tagged_rows (col : EdgeData -> attr tag) (T : GeoDataFrame) :
  (if negb (in_columns col T) then Ok []
   else match rows_where (fun d => notna (col d)) T with
        | [] => Ok []
        | _ :: _ => Ok (rows_where (fun d => notna (col d)) T)
        end)
  = Ok (map fst (filter (fun r => notna (col (snd r))) T)).
Proof.
  unfold rows_where.
  destruct (in_columns col T) eqn:C; cbn [negb].
  - now destruct (map fst (filter _ T)).
  - replace (filter (fun r => notna (col (snd r))) T) with (@nil (EdgeId * EdgeData));
      [reflexivity|].
    symmetry. unfold in_columns in C.
    induction T as [|r T IH]; [reflexivity|].
    simpl in C |- *. apply orb_false_iff in C. destruct C as [C1 C2].
    destruct (col (snd r)); try discriminate. simpl. now apply IH.
Qed.

Lemma gdf_returns (g : Graph) (T : GeoDataFrame) :
  graph_to_edges_gdf g = Ok T -> T = edges g /\ edges g <> [].
Proof.
  unfold graph_to_edges_gdf.
  destruct (edges g) as [|r l]; [discriminate|].
  intros [= <-]. split; [reflexivity|discriminate].
Qed.

(** Every result of the dispatch is, up to order, a part of the network's
    edge identifiers. *)
Lemma scenario_candidates_part (g : Graph) (rng : Generator)
    (scenario : string) (severity : Q) (polys : option (list Geometry))
    (ids : list EdgeId) :
  scenario_candidates g (edges g) rng scenario severity polys = Ok ids ->
  exists rest, Permutation (ids ++ rest) (edge_ids g).
Proof.
  unfold scenario_candidates.
  destruct (String.eqb scenario "Bridge Collapse").
  { unfold select_bridge_edges.
    destruct (graph_to_edges_gdf g) as [T|] eqn:HT; [|discriminate].
    apply gdf_returns in HT. destruct HT as [-> _].
    cbn [res_bind]. rewrite (tagged_rows bridge). intros Hr.
    injection Hr as <-.
    eexists. apply map_filter_Permutation. }
  destruct (String.eqb scenario "Tunnel Closure").
  { unfold select_tunnel_edges.
    destruct (graph_to_edges_gdf g) as [T|] eqn:HT; [|discriminate].
    apply gdf_returns in HT. destruct HT as [-> _].
    cbn [res_bind]. rewrite (tagged_rows tunnel). intros Hr.
    injection Hr as <-.
    eexists. apply map_filter_Permutation. }
  assert (Hhw : select_highway_edges g = Ok ids ->
                exists rest, Permutation (ids ++ rest) (edge_ids g)).
  { unfold select_highway_edges.
    destruct (graph_to_edges_gdf g) as [T|] eqn:HT; [|discriminate].
    apply gdf_returns in HT. destruct HT as [-> _].
    cbn [res_bind]. destruct (negb _); [discriminate|]. intros Hr.
    injection Hr as <-.
    eexists. apply map_filter_Permutation. }
  destruct (String.eqb scenario "Highway Flood").
  { destruct (truthy polys); [|exact Hhw].
    destruct polys as [[|p ps]|]; try exact Hhw.
    intros Hr. injection Hr as <-.
    eexists. apply map_filter_Permutation. }
  destruct (String.eqb scenario "Targeted Attack (Top k%)").
  { intros Hr. injection Hr as <-. eexists. apply filter_Permutation. }
  destruct (String.eqb scenario "Random Failure").
  { intros Hr. injection Hr as <-.
    exists (skipn (Z.to_nat (n_selected (List.length (edge_ids g)) severity))
                  (fst (shuffle rng (edge_ids g)))).
    rewrite firstn_skipn. apply Permutation_sym, shuffle_perm. }
  intros Hr. injection Hr as <-. exists (edge_ids g). apply Permutation_refl.
Qed.

(** What a returning selection was computed from. *)
Lemma select_returns (w w1 : World) (G : loc) (g : Graph)
    (scenario : string) (severity : Q)
    (polys : option (list Geometry)) (seed : option N) (ids : list EdgeId) :
  nth_error (heap w) G = Some g ->
  select_edges_for_scenario G scenario severity polys seed w = (Ok ids, w1) ->
  str_in scenario SCENARIOS = true /\
  edges g <> [] /\
  scenario_candidates g (edges g) (fst (rng_of seed w)) scenario severity polys
    = Ok ids /\
  w1 = snd (rng_of seed w).
Proof.
  intros E Hsel.
  destruct (str_in scenario SCENARIOS) eqn:Hs.
  - destruct (edges g) as [|r l] eqn:Eg.
    + exfalso. unfold select_edges_for_scenario in Hsel. rewrite Hs in Hsel.
      cbn [negb] in Hsel. unfold bind at 1 in Hsel.
      rewrite (deref_run w G g E) in Hsel.
      unfold bind at 1, lift at 1, graph_to_edges_gdf in Hsel.
      rewrite Eg in Hsel. discriminate.
    + assert (Hne : edges g <> []) by (rewrite Eg; discriminate).
      rewrite (select_run w G g (edges g) scenario severity polys seed E
                 (gdf_of_nonempty g Hne) Hs) in Hsel.
      rewrite <- Eg. injection Hsel as Hc Hw.
      repeat split; auto.
  - unfold select_edges_for_scenario in Hsel. rewrite Hs in Hsel.
    discriminate.
Qed.

(** X8. The dispatcher never invents an edge: whatever the scenario, a
    returned selection consists of edge identifiers of the network, and
    with distinct identifiers in the network no identifier is selected
    twice. *)
Theorem selection_within_network
    (w : World) (G : loc) (g : Graph) (scenario : string) (severity : Q)
    (polys : option (list Geometry)) (seed : option N) (ids : list EdgeId) :
  nth_error (heap w) G = Some g ->
  fst (select_edges_for_scenario G scenario severity polys seed w) = Ok ids ->
  (forall e, In e ids -> In e (edge_ids g)) /\
  (List.length ids <= List.length (edges g))%nat /\
  (NoDup (edge_ids g) -> NoDup ids).
Proof.
  intros E Hsel.
  destruct (select_edges_for_scenario G scenario severity polys seed w)
    as [r w1] eqn:R.
  cbn [fst] in Hsel. subst r.
  destruct (select_returns _ _ _ _ _ _ _ _ _ E R) as [_ [_ [Hc _]]].
  destruct (scenario_candidates_part _ _ _ _ _ _ Hc) as [rest Hp].
  split; [|split].
  - intros e Hin. eapply Permutation_in; [exact Hp|].
    apply in_or_app. now left.
  - apply Permutation_length in Hp.
    unfold edge_ids in Hp. rewrite length_app, length_map in Hp. lia.
  - intros Hnd.
    apply (Permutation_NoDup (Permutation_sym Hp)) in Hnd.
    now apply NoDup_app_remove_r in Hnd.
Qed.

End SelectionShape.

(** ** Edge selection: the scenarios one by one *)


Section Scenarios.
Context `{FA : Float64} `{SH : Shapely} `{NP : NumpyRandom} `{NX : NetworkX}.

(** X9. On a network with at least one edge, Bridge Collapse selects, in
    edge order, exactly the edges whose [bridge] tag is present and not
    null, and Tunnel Closure those whose [tunnel] tag is; severity, hazard
    polygons and seed have no effect on either selection. *)
Theorem tag_scenarios_ignore_severity
    (w : World) (G : loc) (g : Graph) (severity : Q)
    (polys : option (list Geometry)) (seed : option N) :
  nth_error (heap w) G = Some g ->
  edges g <> [] ->
  fst (select_edges_for_scenario G "Bridge Collapse" severity polys seed w)
    = Ok (map fst (filter (fun r => match bridge (snd r) with
                                    | Val _ => true
                                    | _ => false
                                    end) (edges g))) /\
  fst (select_edges_for_scenario G "Tunnel Closure" severity polys seed w)
    = Ok (map fst (filter (fun r => match tunnel (snd r) with
                                    | Val _ => true
                                    | _ => false
                                    end) (edges g))).
Proof.
  intros E Hne. split.
  - rewrite (select_run w G g (edges g) "Bridge Collapse" _ _ _ E
               (gdf_of_nonempty g Hne) eq_refl).
    cbn [fst]. unfold scenario_candidates. cbn [String.eqb Ascii.eqb Bool.eqb].
    unfold select_bridge_edges. rewrite (gdf_of_nonempty g Hne).
    cbn [res_bind]. apply (tagged_rows bridge).
  - rewrite (select_run w G g (edges g) "Tunnel Closure" _ _ _ E
               (gdf_of_nonempty g Hne) eq_refl).
    cbn [fst]. unfold scenario_candidates. cbn [String.eqb Ascii.eqb Bool.eqb].
    unfold select_tunnel_edges. rewrite (gdf_of_nonempty g Hne).
    cbn [res_bind]. apply (tagged_rows tunnel).
Qed.

(** X10. Highway Flood on a network with at least one edge.  Given a
    nonempty list of hazard polygons it selects, in edge order, exactly
    the edges whose geometry intersects one of them; the [highway] tags
    are not read, so no [KeyError] arises.  Without polygons ([None] or
    an empty list), when some edge carries the [highway] key, it selects
    exactly the edges whose tag is, or lists, one of motorway, trunk,
    primary, secondary.  Severity and seed have no effect. *)
Theorem highway_flood_selection
    (w : World) (G : loc) (g : Graph) (severity : Q)
    (polys : option (list Geometry)) (seed : option N) :
  nth_error (heap w) G = Some g ->
  edges g <> [] ->
  fst (select_edges_for_scenario G "Highway Flood" severity polys seed w) =
    match polys with
    | Some (p :: ps) =>
        Ok (map fst (filter (fun r => existsb (intersects (geometry (snd r)))
                                              (p :: ps))
                            (edges g)))
    | _ =>
        if existsb (fun r => match highway (snd r) with
                             | Missing => false
                             | _ => true
                             end) (edges g)
        then Ok (map fst (filter (fun r => is_major (highway (snd r)))
                                 (edges g)))
        else Raise KeyError
    end.
Proof.
  intros E Hne.
  rewrite (select_run w G g (edges g) "Highway Flood" _ _ _ E
             (gdf_of_nonempty g Hne) eq_refl).
  cbn [fst]. unfold scenario_candidates. cbn [String.eqb Ascii.eqb Bool.eqb].
  assert (Hhw : select_highway_edges g =
                if existsb (fun r => match highway (snd r) with
                                     | Missing => false
                                     | _ => true
                                     end) (edges g)
                then Ok (map fst (filter (fun r => is_major (highway (snd r)))
                                         (edges g)))
                else Raise KeyError).
  { unfold select_highway_edges. rewrite (gdf_of_nonempty g Hne).
    cbn [res_bind]. unfold in_columns, has_key.
    now destruct (existsb _ (edges g)). }
  destruct polys as [[|p ps]|]; cbn [truthy]; try exact Hhw.
  reflexivity.
Qed.


(** X12. At one seed the Random Failure selections are nested: for
    severities [s1 <= s2] the list selected at [s1] is an initial part of
    the list selected at [s2]. *)
Theorem random_failure_grows_with_severity
    (w : World) (G : loc) (g : Graph) (s1 s2 : Q)
    (polys : option (list Geometry)) (seed : N) (ids1 ids2 : list EdgeId) :
  nth_error (heap w) G = Some g ->
  (s1 <= s2)%Q ->
  fst (select_edges_for_scenario G "Random Failure" s1 polys (Some seed) w)
    = Ok ids1 ->
  fst (select_edges_for_scenario G "Random Failure" s2 polys (Some seed) w)
    = Ok ids2 ->
  exists more, ids2 = ids1 ++ more.
Proof.
  intros E Hs H1 H2.
  destruct (select_edges_for_scenario G "Random Failure" s1 polys (Some seed) w)
    as [r1 w1] eqn:R1.
  destruct (select_edges_for_scenario G "Random Failure" s2 polys (Some seed) w)
    as [r2 w2] eqn:R2.
  cbn [fst] in H1, H2. subst r1 r2.
  destruct (select_returns _ _ _ _ _ _ _ _ _ E R1) as [_ [_ [C1 _]]].
  destruct (select_returns _ _ _ _ _ _ _ _ _ E R2) as [_ [_ [C2 _]]].
  unfold scenario_candidates in C1, C2.
  cbn [String.eqb Ascii.eqb Bool.eqb] in C1, C2.
  injection C1 as <-. injection C2 as <-.
  apply firstn_prefix.
  pose proof (n_selected_monotone (List.length (edge_ids g)) s1 s2 Hs). lia.
Qed.

(** X13. The Targeted Attack selections are nested as well: for
    severities [s1 <= s2] every edge selected at [s1] is selected at
    [s2]. *)
Theorem targeted_attack_grows_with_severity
    (w : World) (G : loc) (g : Graph) (s1 s2 : Q)
    (polys : option (list Geometry)) (seed : option N)
    (ids1 ids2 : list EdgeId) :
  nth_error (heap w) G = Some g ->
  (s1 <= s2)%Q ->
  fst (select_edges_for_scenario G "Targeted Attack (Top k%)" s1 polys seed w)
    = Ok ids1 ->
  fst (select_edges_for_scenario G "Targeted Attack (Top k%)" s2 polys seed w)
    = Ok ids2 ->
  forall e, In e ids1 -> In e ids2.
Proof.
  intros E Hs H1 H2.
  destruct (select_edges_for_scenario G "Targeted Attack (Top k%)" s1 polys seed w)
    as [r1 w1] eqn:R1.
  destruct (select_edges_for_scenario G "Targeted Attack (Top k%)" s2 polys seed w)
    as [r2 w2] eqn:R2.
  cbn [fst] in H1, H2. subst r1 r2.
  destruct (select_returns _ _ _ _ _ _ _ _ _ E R1) as [_ [_ [C1 _]]].
  destruct (select_returns _ _ _ _ _ _ _ _ _ E R2) as [_ [_ [C2 _]]].
  unfold scenario_candidates in C1, C2.
  cbn [String.eqb Ascii.eqb Bool.eqb] in C1, C2.
  injection C1 as <-. injection C2 as <-.
  intros [[u v] key] Hin. apply filter_In in Hin. destruct Hin as [Hin Hp].
  apply filter_In. split; [exact Hin|].
  unfold pair_in in Hp |- *. apply existsb_exists in Hp.
  destruct Hp as [p [Hp Heq]]. apply existsb_exists. exists p.
  split; [|exact Heq].
  unfold targeted_top_pairs in Hp |- *.
  set (ranked := sorted_desc (edge_betweenness_centrality (nx_Graph g))) in *.
  destruct (firstn_prefix ranked
              (Z.to_nat (n_selected (List.length ranked) s1))
              (Z.to_nat (n_selected (List.length ranked) s2))) as [more Hm].
  { pose proof (n_selected_monotone (List.length ranked) s1 s2 Hs). lia. }
  rewrite Hm, map_app. apply in_or_app. now left.
Qed.

End Scenarios.

(** ** Selection followed by simulation *)

(** Distinct listed identifiers that are all in the network: each one
    names one edge. *)
Lemma listed_edges_count (ids : list EdgeId) (l : list (EdgeId * EdgeData)) :
  NoDup ids -> NoDup (map fst l) ->
  (forall e, In e ids -> In e (map fst l)) ->
  List.length (filter (fun r => listed ids (fst r)) l) = List.length ids.
Proof.
  intros Hi Hl Hsub.
  rewrite <- (length_map fst (filter _ l)).
  apply Permutation_length, NoDup_Permutation.
  - now apply NoDup_ids_filter.
  - exact Hi.
  - intros x. rewrite in_map_iff. split.
    + intros [r [<- Hr]]. apply filter_In in Hr. now apply listed_In.
    + intros Hx. destruct (proj1 (in_map_iff _ _ _) (Hsub x Hx)) as [r [<- Hr]].
      exists r. split; [reflexivity|]. apply filter_In.
      split; [exact Hr|now apply listed_In].
Qed.

Section Pipeline.
Context `{FA : Float64} `{SH : Shapely} `{NP : NumpyRandom} `{NX : NetworkX}.

(** X14. Selection followed by simulation on a network with distinct edge
    identifiers: every selected edge is removed.  The returned
    [n_removed_edges] is the length of the selection, the damaged copy
    has that many edges fewer than the network, and the result is the
    neutral one exactly when the selection is empty. *)
Theorem every_selected_edge_is_removed
    (w w1 w2 : World) (G : loc) (g : Graph) (scenario : string) (severity : Q)
    (polys : option (list Geometry)) (seed seed' : option N)
    (n : Z) (penalty : Q) (ids : list EdgeId) (m : SimulationMetrics) :
  nth_error (heap w) G = Some g ->
  NoDup (edge_ids g) ->
  select_edges_for_scenario G scenario severity polys seed w = (Ok ids, w1) ->
  simulate_single_shock G ids n penalty seed' w1 = (Ok m, w2) ->
  n_removed_edges m = Z.of_nat (List.length ids) /\
  (ids = [] <-> m = mkMetrics 1 1 0 0 0) /\
  exists after,
    heap w2 = heap w ++ [after] /\
    (List.length (edges after) + List.length ids
     = List.length (edges g))%nat.
Proof.
  intros E Hnd Hsel Hrun.
  destruct (select_returns _ _ _ _ _ _ _ _ _ E Hsel) as [_ [_ [Hc Hw1]]].
  destruct (scenario_candidates_part _ _ _ _ _ _ Hc) as [rest Hp].
  assert (Hids : NoDup ids).
  { apply (Permutation_NoDup (Permutation_sym Hp)) in Hnd.
    now apply NoDup_app_remove_r in Hnd. }
  assert (Hsub : forall e, In e ids -> In e (edge_ids g)).
  { intros e Hin. eapply Permutation_in; [exact Hp|].
    apply in_or_app. now left. }
  assert (Hh : heap w1 = heap w)
    by (rewrite Hw1; apply (rng_of_heap seed w)).
  assert (E1 : nth_error (heap w1) G = Some g) by (rewrite Hh; exact E).
  pose proof (apply_removals_listed g ids Hnd) as Hk.
  rewrite (listed_edges_count ids (edges g) Hids Hnd Hsub) in Hk.
  assert (Hafter : (List.length (edges (without_listed g ids)) + List.length ids
                    = List.length (edges g))%nat).
  { pose proof (filter_split_length (fun r => listed ids (fst r)) (edges g)) as Hs.
    rewrite (listed_edges_count ids (edges g) Hids Hnd Hsub) in Hs.
    unfold without_listed. simpl. lia. }
  rewrite (simulate_run w1 G g) in Hrun by exact E1. cbv zeta in Hrun.
  rewrite apply_removals_graph, Hk, Hh in Hrun.
  destruct (Z.eqb_spec (Z.of_nat (List.length ids)) 0) as [K|K].
  - injection Hrun as <- <-. simpl.
    split; [lia|]. split.
    + split; [reflexivity|].
      intros _. destruct ids; [reflexivity|simpl in K; lia].
    + exists (without_listed g ids). split; [reflexivity|exact Hafter].
  - destruct (sample_pairs_in g n _) as [pairs|] eqn:S; [|discriminate].
    cbn [res_bind fst] in Hrun.
    assert (Hm : shock_metrics g (without_listed g ids)
                   (Z.of_nat (List.length ids)) pairs penalty = Ok m)
      by (injection Hrun as Hm _; exact Hm).
    assert (Hw2 : heap w2 = heap w ++ [without_listed g ids]).
    { injection Hrun as _ <-.
      match goal with
      | |- context [rng_of seed' ?w0] =>
          destruct (rng_of_heap seed' w0) as [-> _]
      end.
      reflexivity. }
    assert (Hn : n_removed_edges m = Z.of_nat (List.length ids)).
    { unfold shock_metrics in Hm.
      destruct (score_pairs _ _ _ _ _ _) as [[ratios d]|]; [|discriminate].
      cbn [res_bind] in Hm.
      destruct ratios; injection Hm as <-; reflexivity. }
    split; [exact Hn|]. split.
    + split.
      * intros ->. simpl in K. congruence.
      * intros ->. simpl in Hn. lia.
    + exists (without_listed g ids). split; [exact Hw2|exact Hafter].
Qed.

End Pipeline.

(** ** The targeted attack outside the unit interval *)





Section TargetedRange.
Context `{FA : Float64} `{SH : Shapely} `{NP : NumpyRandom} `{NX : NetworkX}.



End TargetedRange.

(** ** The single run and the sweep *)

Section SingleRunFacts.
Context `{FA : Float64} `{SH : Shapely} `{NP : NumpyRandom} `{NX : NetworkX}.

(** X16. [run_single_scenario_for_city] checks the scenario name only
    after the network is loaded: for a name outside [SCENARIOS] the call
    raises [ValueError] with the loaded network left in the store, and
    when loading fails the loader's error is the one raised. *)
Theorem unknown_scenario_is_rejected_after_loading
    (w : World) (city scenario : string) (severity : Q) (n_pairs : Z)
    (polys : option (list Geometry)) (cache_dir : string) (seed : option N) :
  str_in scenario SCENARIOS = false ->
  run_single_scenario_for_city city scenario severity n_pairs polys
                               cache_dir seed w =
    match provider w city cache_dir with
    | Ok g => (Raise ValueError,
               mkWorld (heap w ++ [g]) (os_entropy w) (provider w))
    | Raise e => (Raise e, w)
    end.
Proof.
  intros Hs. unfold run_single_scenario_for_city.
  unfold bind at 1. unfold load_city_graph.
  destruct (provider w city cache_dir) as [g|e]; [|reflexivity].
  unfold alloc. unfold bind at 1.
  unfold select_edges_for_scenario. now rewrite Hs.
Qed.

(** The sweep when its inner loop has nothing to run. *)
Lemma for_severities_no_runs (body : nat -> Q -> nat -> M Row)
    (runs_per_severity : Z) (severities : list Q) :
  runs_per_severity <= 0 ->
  forall (i : nat) (rows : list Row) (w : World),
    for_severities body runs_per_severity i severities rows w = (Ok rows, w).
Proof.
  intros Hr. induction severities as [|sev rest IH]; intros i rows w.
  - reflexivity.
  - cbn [for_severities]. unfold bind at 1, range.
    replace (Z.to_nat runs_per_severity) with O by lia.
    cbn [seq for_runs]. unfold ret at 1. apply IH.
Qed.

(** X17. The sweep checks the scenario name only when it runs a cell.
    With no severity, or with a repeat count of zero or less, it returns
    an empty table even for a name outside [SCENARIOS]; with at least one
    cell to run, such a name raises [ValueError]. *)
Theorem sweep_validates_scenario_lazily
    (w : World) (g : Graph) (city scenario : string) (severities : list Q)
    (n_pairs runs_per_severity : Z) (polys : option (list Geometry))
    (cache_dir : string) (base_seed : N) :
  provider w city cache_dir = Ok g ->
  str_in scenario SCENARIOS = false ->
  fst (run_progressive_damage_experiment city scenario severities n_pairs
         runs_per_severity polys cache_dir base_seed w) =
    match severities with
    | [] => Ok []
    | _ :: _ => if 1 <=? runs_per_severity then Raise ValueError else Ok []
    end.
Proof.
  intros Hp Hs. unfold run_progressive_damage_experiment.
  unfold bind at 1. unfold load_city_graph. rewrite Hp. unfold alloc.
  destruct severities as [|sev rest]; [reflexivity|].
  destruct (Z.leb_spec 1 runs_per_severity) as [Hr|Hr].
  - cbn [for_severities]. unfold bind at 1, range.
    destruct (Z.to_nat runs_per_severity) as [|k] eqn:K; [lia|].
    cbn [seq for_runs]. unfold bind at 1.
    unfold sweep_cell at 1. unfold bind at 1.
    unfold select_edges_for_scenario. now rewrite Hs.
  - rewrite for_severities_no_runs by lia. reflexivity.
Qed.

(** X18. A sweep over one severity with one repeat is the single run at
    the base seed: it fails as the single run does, and otherwise its
    only row carries the single run's metrics, with run number 0. *)
Theorem single_cell_sweep_is_single_run
    (w : World) (city scenario : string) (sev : Q) (n_pairs : Z)
    (polys : option (list Geometry)) (cache_dir : string) (seed : N) :
  fst (run_progressive_damage_experiment city scenario [sev] n_pairs 1
         polys cache_dir seed w) =
  (r <~ fst (run_single_scenario_for_city city scenario sev n_pairs polys
               cache_dir (Some seed) w) ;;
   Ok [mkRow city scenario sev 0
             (mkMetrics (sr_avg_ratio r) (sr_median_ratio r)
                        (sr_pct_disconnected r)
                        (sr_n_removed_edges r) (sr_n_pairs r))])%res.
Proof.
  unfold run_progressive_damage_experiment, run_single_scenario_for_city.
  unfold bind.
  destruct (load_city_graph city cache_dir w) as [[G|e] w0]; [|reflexivity].
  cbn [for_severities]. unfold range.
  change (Z.to_nat 1) with 1%nat. cbn [seq for_runs].
  unfold sweep_cell, bind.
  replace (seed + N.of_nat 0 * 100 + N.of_nat 0)%N with seed
    by lia.
  destruct (select_edges_for_scenario G scenario sev polys (Some seed) w0)
    as [[ids|e] w1]; [|reflexivity].
  destruct (simulate_single_shock G ids n_pairs default_penalty_ratio
              (Some seed) w1) as [[m|e] w2]; [|reflexivity].
  unfold ret. cbn [fst res_bind app]. now destruct m.
Qed.

(** X19. A city whose network has edges but no edge with a bridge tag
    (none carries the key, or every value is null) comes out of a Bridge
    Collapse run with the neutral result, whatever the severity, the
    requested pair count and the seed: nothing is selected, nothing is
    removed and no pair is sampled.  The same holds for Tunnel Closure and
    the tunnel tag. *)
Theorem untagged_city_gives_neutral_result
    (w : World) (g : Graph) (city : string) (severity : Q) (n_pairs : Z)
    (polys : option (list Geometry)) (cache_dir : string) (seed : option N) :
  provider w city cache_dir = Ok g ->
  edges g <> [] ->
  ((forall r, In r (edges g) -> notna (bridge (snd r)) = false) ->
   fst (run_single_scenario_for_city city "Bridge Collapse" severity n_pairs
          polys cache_dir seed w)
   = Ok (mkSimulationResult city "Bridge Collapse" severity 1 1 0 0 0)) /\
  ((forall r, In r (edges g) -> notna (tunnel (snd r)) = false) ->
   fst (run_single_scenario_for_city city "Tunnel Closure" severity n_pairs
          polys cache_dir seed w)
   = Ok (mkSimulationResult city "Tunnel Closure" severity 1 1 0 0 0)).
Proof.
  intros Hp Hne.
  set (w0 := mkWorld (heap w ++ [g]) (os_entropy w) (provider w)).
  assert (E0 : nth_error (heap w0) (List.length (heap w)) = Some g)
    by apply nth_error_app_last.
  assert (Hnone : forall (col : EdgeData -> attr tag),
             (forall r, In r (edges g) -> notna (col (snd r)) = false) ->
             map fst (filter (fun r => notna (col (snd r))) (edges g)) = []).
  { intros col Hcol. now rewrite filter_none. }
  assert (Hrun : forall scenario ids w1,
             select_edges_for_scenario (List.length (heap w)) scenario severity
               polys seed w0 = (Ok ids, w1) ->
             ids = [] ->
             fst (run_single_scenario_for_city city scenario severity n_pairs
                    polys cache_dir seed w)
             = Ok (mkSimulationResult city scenario severity 1 1 0 0 0)).
  { intros scenario ids w1 Hsel ->.
    destruct (select_returns _ _ _ _ _ _ _ _ _ E0 Hsel) as [_ [_ [_ Hw1]]].
    assert (E1 : nth_error (heap w1) (List.length (heap w)) = Some g).
    { rewrite Hw1. destruct (rng_of_heap seed w0) as [-> _]. exact E0. }
    unfold run_single_scenario_for_city, bind, load_city_graph.
    rewrite Hp. unfold alloc. fold w0. rewrite Hsel.
    rewrite (simulate_run w1 _ g [] n_pairs default_penalty_ratio seed E1).
    reflexivity. }
  split; intros Hcol.
  - apply (Hrun "Bridge Collapse"%string [] (snd (rng_of seed w0))); [|reflexivity].
    rewrite (select_run w0 _ g (edges g) "Bridge Collapse" _ _ _ E0
               (gdf_of_nonempty g Hne) eq_refl).
    f_equal. unfold scenario_candidates. cbn [String.eqb Ascii.eqb Bool.eqb].
    unfold select_bridge_edges. rewrite (gdf_of_nonempty g Hne).
    cbn [res_bind]. rewrite (tagged_rows bridge). now rewrite Hnone.
  - apply (Hrun "Tunnel Closure"%string [] (snd (rng_of seed w0))); [|reflexivity].
    rewrite (select_run w0 _ g (edges g) "Tunnel Closure" _ _ _ E0
               (gdf_of_nonempty g Hne) eq_refl).
    f_equal. unfold scenario_candidates. cbn [String.eqb Ascii.eqb Bool.eqb].
    unfold select_tunnel_edges. rewrite (gdf_of_nonempty g Hne).
    cbn [res_bind]. rewrite (tagged_rows tunnel). now rewrite Hnone.
Qed.

End SingleRunFacts.

(** ** The endpoints *)

Section Endpoints.
Context `{FA : Float64} `{SH : Shapely} `{NP : NumpyRandom} `{NX : NetworkX}.


End Endpoints.

(** ** The cache name *)

Lemma delete_char_absent (c : ascii) (s : string) :
  ~ In c (list_ascii_of_string (delete_char c s)).
Proof.
  induction s as [|a s IH]; simpl; [tauto|].
  destruct (Ascii.eqb_spec a c) as [->|Hac]; [exact IH|].
  simpl. intros [H|H]; [congruence|now apply IH].
Qed.

Lemma replace_char_keeps_absent (c d x : ascii) (s : string) :
  x <> d -> ~ In x (list_ascii_of_string s) ->
  ~ In x (list_ascii_of_string (replace_char c d s)).
Proof.
  intros Hxd. induction s as [|a s IH]; simpl; [tauto|].
  intros Hn [H|H].
  - destruct (Ascii.eqb a c); [congruence|]. apply Hn. now left.
  - apply IH; [|exact H]. intros F. apply Hn. now right.
Qed.

Lemma replace_char_absent (c d : ascii) (s : string) :
  c <> d -> ~ In c (list_ascii_of_string (replace_char c d s)).
Proof.
  intros Hcd. induction s as [|a s IH]; simpl; [tauto|].
  intros [H|H]; [|now apply IH].
  destruct (Ascii.eqb_spec a c); congruence.
Qed.

Lemma delete_char_id (c : ascii) (s : string) :
  ~ In c (list_ascii_of_string s) -> delete_char c s = s.
Proof.
  induction s as [|a s IH]; simpl; [reflexivity|].
  intros Hn. destruct (Ascii.eqb_spec a c) as [->|_].
  - elim Hn. now left.
  - f_equal. apply IH. intros F. apply Hn. now right.
Qed.

Lemma replace_char_id (c d : ascii) (s : string) :
  ~ In c (list_ascii_of_string s) -> replace_char c d s = s.
Proof.
  induction s as [|a s IH]; simpl; [reflexivity|].
  intros Hn. destruct (Ascii.eqb_spec a c) as [->|_].
  - elim Hn. now left.
  - f_equal. apply IH. intros F. apply Hn. now right.
Qed.

Lemma delete_char_app (c : ascii) (s t : string) :
  delete_char c (s ++ t) = (delete_char c s ++ delete_char c t)%string.
Proof.
  induction s as [|a s IH]; simpl; [reflexivity|].
  destruct (Ascii.eqb a c); simpl; now rewrite IH.
Qed.

Lemma replace_char_app (c d : ascii) (s t : string) :
  replace_char c d (s ++ t)
  = (replace_char c d s ++ replace_char c d t)%string.
Proof.
  induction s as [|a s IH]; simpl; [reflexivity|]. now rewrite IH.
Qed.

Lemma delete_char_length (c : ascii) (s : string) :
  (String.length (delete_char c s) <= String.length s)%nat.
Proof.
  induction s as [|a s IH]; simpl; [lia|].
  destruct (Ascii.eqb a c); simpl; lia.
Qed.

Lemma replace_char_length (c d : ascii) (s : string) :
  String.length (replace_char c d s) = String.length s.
Proof. induction s as [|a s IH]; simpl; congruence. Qed.

(** X21. The cache name of a city holds neither a comma nor a space, is
    no longer than the city's name, and is a fixed point: a name without
    commas and spaces (in particular a cache name) is its own cache
    name. *)
Theorem safe_name_has_no_separator (city : string) :
  ~ In ","%char (list_ascii_of_string (safe_name city)) /\
  ~ In " "%char (list_ascii_of_string (safe_name city)) /\
  (String.length (safe_name city) <= String.length city)%nat /\
  safe_name (safe_name city) = safe_name city /\
  (~ In ","%char (list_ascii_of_string city) ->
   ~ In " "%char (list_ascii_of_string city) ->
   safe_name city = city).
Proof.
  assert (Hc : ~ In ","%char (list_ascii_of_string (safe_name city))).
  { unfold safe_name. apply replace_char_keeps_absent; [discriminate|].
    apply delete_char_absent. }
  assert (Hs : ~ In " "%char (list_ascii_of_string (safe_name city))).
  { unfold safe_name. apply replace_char_absent. discriminate. }
  assert (Hid : forall s, ~ In ","%char (list_ascii_of_string s) ->
                          ~ In " "%char (list_ascii_of_string s) ->
                          safe_name s = s).
  { intros s H1 H2. unfold safe_name.
    rewrite (delete_char_id _ s H1). now apply replace_char_id. }
  repeat split; auto.
  unfold safe_name. rewrite replace_char_length. apply delete_char_length.
Qed.

(** X22. City names that differ only in commas, or in a space against an
    underscore, have the same cache name: a comma anywhere in the name is
    dropped and a space is read as an underscore. *)
Theorem safe_name_collisions (a b : string) :
  safe_name (a ++ "," ++ b) = safe_name (a ++ b) /\
  safe_name (a ++ " " ++ b) = safe_name (a ++ "_" ++ b) /\
  safe_name (a ++ b) = (safe_name a ++ safe_name b)%string.
Proof.
  unfold safe_name.
  rewrite !delete_char_app, !replace_char_app.
  repeat split.
Qed.

(** ** The further properties on concrete networks *)

Ltac distinct_edges :=
  repeat (apply NoDup_cons; [simpl; intuition congruence|]); apply NoDup_nil.


(** X2 on the two-way street: the same two edges, listed in another order
    and one of them twice. *)
Lemma removal_list_is_a_set_example :
  simulate_single_shock 0%nat [(0, 1, 0); (1, 2, 0)] 4 5 None
                        (Examples.world Examples.street)
  = simulate_single_shock 0%nat [(1, 2, 0); (0, 1, 0); (0, 1, 0)] 4 5 None
                          (Examples.world Examples.street).
Proof.
  apply (removal_list_is_a_set (Examples.world Examples.street) 0%nat
           Examples.street).
  - reflexivity.
  - simpl. distinct_edges.
  - intros e. simpl. tauto.
Defined.

(** X3 on the two-way street: of three listed identifiers one is not in
    the network and one is a repetition. *)
Lemma n_removed_counts_listed_edges_example :
  n_removed_edges (mkMetrics (12 # 4) (6 # 2) (200 # 4) 1 4) =
    Z.of_nat (List.length
                (filter (fun r => existsb (fun x => EdgeId_eqb x (fst r))
                                          [(0, 1, 0); (7, 8, 0); (0, 1, 0)])
                        (edges Examples.street))) /\
  n_removed_edges (mkMetrics (12 # 4) (6 # 2) (200 # 4) 1 4)
    <= Z.of_nat (List.length (edges Examples.street)).
Proof.
  apply (n_removed_counts_listed_edges
           (Examples.world Examples.street)
           (snd (simulate_single_shock 0%nat [(0, 1, 0); (7, 8, 0); (0, 1, 0)]
                   4 5 (Some 2%N) (Examples.world Examples.street)))
           0%nat Examples.street [(0, 1, 0); (7, 8, 0); (0, 1, 0)] 4 5
           (Some 2%N)).
  - reflexivity.
  - simpl. distinct_edges.
  - vm_compute. reflexivity.
Defined.

(** X4 on the two-way street, four pairs wanted. *)
Lemma metrics_within_bounds_example :
  0 <= n_removed_edges (mkMetrics (12 # 4) (6 # 2) (200 # 4) 1 4)
    <= Z.of_nat (List.length [(0, 1, 0); (7, 8, 0)]) /\
  0 <= n_pairs (mkMetrics (12 # 4) (6 # 2) (200 # 4) 1 4) <= Z.max 0 4 /\
  (n_pairs (mkMetrics (12 # 4) (6 # 2) (200 # 4) 1 4) = 0 <->
   n_removed_edges (mkMetrics (12 # 4) (6 # 2) (200 # 4) 1 4) = 0) /\
  (0 <= pct_disconnected (mkMetrics (12 # 4) (6 # 2) (200 # 4) 1 4) <= 100)%Q.
Proof.
  apply (metrics_within_bounds
           (Examples.world Examples.street)
           (snd (simulate_single_shock 0%nat [(0, 1, 0); (7, 8, 0)]
                   4 5 (Some 2%N) (Examples.world Examples.street)))
           0%nat Examples.street [(0, 1, 0); (7, 8, 0)] 4 5 (Some 2%N)).
  - reflexivity.
  - unfold max_exact_int. lia.
  - vm_compute. reflexivity.
Defined.

(** X5 on the two-way street, four pairs wanted, seed 2. *)
Lemma sampled_pairs_are_connected_example :
  exists H,
    _largest_component Examples.street = Ok H /\
    forall u v, In (u, v) [(0, 2); (1, 2); (0, 1); (1, 0)] ->
      In u (nodes H) /\ In v (nodes H) /\
      In u (nodes Examples.street) /\ In v (nodes Examples.street) /\
      has_path H u v = true.
Proof.
  apply (sampled_pairs_are_connected (Examples.world Examples.street) 0%nat
           Examples.street 4 (Some 2%N)).
  - reflexivity.
  - vm_compute. reflexivity.
Defined.

(** X6 on the two-way street: no pair wanted, one edge to remove. *)
Lemma nonpositive_pair_count_example :
  fst (simulate_single_shock 0%nat [(0, 1, 0)] 0 5 None
                             (Examples.world Examples.street)) =
    if existsb (has_edge Examples.street) [(0, 1, 0)] then
      match weakly_connected_components Examples.street with
      | [] => Raise ValueError
      | _ => Raise RuntimeError
      end
    else Ok (mkMetrics 1 1 0 0 0).
Proof.
  apply (nonpositive_pair_count_fails (Examples.world Examples.street) 0%nat
           Examples.street [(0, 1, 0)] 0 5 None).
  - reflexivity.
  - lia.
Defined.

(** X8 on the river town: the Random Failure selection at severity 1/2,
    seed 2. *)
Lemma selection_within_network_example :
  (forall e, In e [(1, 0, 0); (1, 2, 0)] -> In e (edge_ids Town.riverside)) /\
  (List.length [(1, 0, 0); (1, 2, 0)]
   <= List.length (edges Town.riverside))%nat /\
  (NoDup (edge_ids Town.riverside) -> NoDup [(1, 0, 0); (1, 2, 0)]).
Proof.
  apply (selection_within_network (Examples.world Town.riverside) 0%nat
           Town.riverside "Random Failure" (1 # 2) None (Some 2%N)).
  - reflexivity.
  - vm_compute. reflexivity.
Defined.

(** X9 on the river town: the two bridge edges, and the one tunnel edge
    (the edge with a null tag is left out). *)
Lemma tag_scenarios_example :
  fst (select_edges_for_scenario 0%nat "Bridge Collapse" (1 # 100) None None
                                 (Examples.world Town.riverside))
    = Ok (map fst (filter (fun r => match bridge (snd r) with
                                    | Val _ => true
                                    | _ => false
                                    end) (edges Town.riverside))) /\
  fst (select_edges_for_scenario 0%nat "Tunnel Closure" (1 # 100) None None
                                 (Examples.world Town.riverside))
    = Ok (map fst (filter (fun r => match tunnel (snd r) with
                                    | Val _ => true
                                    | _ => false
                                    end) (edges Town.riverside))).
Proof.
  apply (tag_scenarios_ignore_severity (Examples.world Town.riverside) 0%nat
           Town.riverside (1 # 100) None None).
  - reflexivity.
  - discriminate.
Defined.

(** X10 on the river town, with one hazard polygon at the far end. *)
Lemma highway_flood_example :
  fst (select_edges_for_scenario 0%nat "Highway Flood" (1 # 2)
                                 (Some [[(2 # 1, 0 # 1)%Q]]) None
                                 (Examples.world Town.riverside)) =
    match Some [[(2 # 1, 0 # 1)%Q]] with
    | Some (p :: ps) =>
        Ok (map fst (filter (fun r => existsb (intersects (geometry (snd r)))
                                              (p :: ps))
                            (edges Town.riverside)))
    | _ =>
        if existsb (fun r => match highway (snd r) with
                             | Missing => false
                             | _ => true
                             end) (edges Town.riverside)
        then Ok (map fst (filter (fun r => is_major (highway (snd r)))
                                 (edges Town.riverside)))
        else Raise KeyError
    end.
Proof.
  apply (highway_flood_selection (Examples.world Town.riverside) 0%nat
           Town.riverside (1 # 2) (Some [[(2 # 1, 0 # 1)%Q]]) None).
  - reflexivity.
  - discriminate.
Defined.


(** X12 on the river town: severities 1/2 and 3/4 at seed 2. *)
Lemma random_failure_grows_example :
  exists more,
    [(1, 0, 0); (1, 2, 0); (0, 1, 0)] = [(1, 0, 0); (1, 2, 0)] ++ more.
Proof.
  apply (random_failure_grows_with_severity
           (Examples.world Town.riverside) 0%nat Town.riverside
           (1 # 2) (3 # 4) None 2%N).
  - reflexivity.
  - unfold Qle. simpl. lia.
  - vm_compute. reflexivity.
  - vm_compute. reflexivity.
Defined.

(** X13 on the river town: severities 1/2 and 1. *)
Lemma targeted_attack_grows_example :
  (1 # 2 <= 1)%Q /\
  forall e, In e [(0, 1, 0); (1, 0, 0)] ->
            In e [(0, 1, 0); (1, 0, 0); (1, 2, 0); (2, 1, 0)].
Proof.
  assert (Hs : (1 # 2 <= 1)%Q) by (unfold Qle; simpl; lia).
  split; [exact Hs|].
  apply (targeted_attack_grows_with_severity
           (Examples.world Town.riverside) 0%nat Town.riverside
           (1 # 2) 1 None (Some 2%N)).
  - reflexivity.
  - exact Hs.
  - vm_compute. reflexivity.
  - vm_compute. reflexivity.
Defined.

(** X14 on the river town: the bridge collapses, both bridge edges go. *)
Lemma every_selected_edge_is_removed_example :
  n_removed_edges (mkMetrics (16 # 4) (10 # 2) (300 # 4) 2 4)
    = Z.of_nat (List.length [(0, 1, 0); (1, 0, 0)]) /\
  ([(0, 1, 0); (1, 0, 0)] = [] <->
   mkMetrics (16 # 4) (10 # 2) (300 # 4) 2 4 = mkMetrics 1 1 0 0 0) /\
  exists after,
    heap (snd (simulate_single_shock 0%nat [(0, 1, 0); (1, 0, 0)] 4 5
                 (Some 2%N)
                 (snd (select_edges_for_scenario 0%nat "Bridge Collapse"
                         (1 # 2) None (Some 2%N)
                         (Examples.world Town.riverside)))))
      = heap (Examples.world Town.riverside) ++ [after] /\
    (List.length (edges after) + List.length [(0, 1, 0); (1, 0, 0)]
     = List.length (edges Town.riverside))%nat.
Proof.
  apply (every_selected_edge_is_removed
           (Examples.world Town.riverside)
           (snd (select_edges_for_scenario 0%nat "Bridge Collapse"
                   (1 # 2) None (Some 2%N) (Examples.world Town.riverside)))
           (snd (simulate_single_shock 0%nat [(0, 1, 0); (1, 0, 0)] 4 5
                   (Some 2%N)
                   (snd (select_edges_for_scenario 0%nat "Bridge Collapse"
                           (1 # 2) None (Some 2%N)
                           (Examples.world Town.riverside)))))
           0%nat Town.riverside "Bridge Collapse" (1 # 2) None
           (Some 2%N) (Some 2%N) 4 5).
  - reflexivity.
  - simpl. distinct_edges.
  - vm_compute. reflexivity.
  - vm_compute. reflexivity.
Defined.


(** X16 on a provider that serves the river town. *)
Lemma unknown_scenario_example :
  run_single_scenario_for_city "X" "Earthquake" (1 # 2) 4 None "graphs" None
                               (Town.serving Town.riverside) =
    match provider (Town.serving Town.riverside) "X" "graphs" with
    | Ok g => (Raise ValueError,
               mkWorld (heap (Town.serving Town.riverside) ++ [g])
                       (os_entropy (Town.serving Town.riverside))
                       (provider (Town.serving Town.riverside)))
    | Raise e => (Raise e, Town.serving Town.riverside)
    end.
Proof.
  apply (unknown_scenario_is_rejected_after_loading
           (Town.serving Town.riverside) "X" "Earthquake" (1 # 2) 4 None
           "graphs" None).
  reflexivity.
Defined.

(** X17 on the same provider: one severity, no repeat. *)
Lemma sweep_validates_scenario_lazily_example :
  fst (run_progressive_damage_experiment "X" "Earthquake" [1 # 2] 4 0 None
         "graphs" 42%N (Town.serving Town.riverside)) =
    match [1 # 2] with
    | [] => Ok []
    | _ :: _ => if 1 <=? 0 then Raise ValueError else Ok []
    end.
Proof.
  apply (sweep_validates_scenario_lazily
           (Town.serving Town.riverside) Town.riverside "X" "Earthquake"
           [1 # 2] 4 0 None "graphs" 42%N).
  - reflexivity.
  - reflexivity.
Defined.

(** X19 on a provider that serves the two-way street, whose edges carry
    no tag. *)
Lemma untagged_city_example :
  ((forall r, In r (edges Examples.street) ->
              notna (bridge (snd r)) = false) ->
   fst (run_single_scenario_for_city "X" "Bridge Collapse" (1 # 2) 4
          None "graphs" None (Town.serving Examples.street))
   = Ok (mkSimulationResult "X" "Bridge Collapse" (1 # 2) 1 1 0 0 0)) /\
  ((forall r, In r (edges Examples.street) ->
              notna (tunnel (snd r)) = false) ->
   fst (run_single_scenario_for_city "X" "Tunnel Closure" (1 # 2) 4
          None "graphs" None (Town.serving Examples.street))
   = Ok (mkSimulationResult "X" "Tunnel Closure" (1 # 2) 1 1 0 0 0)).
Proof.
  apply (untagged_city_gives_neutral_result
           (Town.serving Examples.street) Examples.street "X" (1 # 2) 4
           None "graphs" None).
  - reflexivity.
  - discriminate.
Defined.
